(** * The PostgresCluster reconciler and the PgBouncer configuration generator

    A shallow embedding of
    [internal/controller/postgrescluster/controller.go] (the [Reconcile]
    loop) and of the configuration part of [internal/pgbouncer]
    ([iniValueSet.String], [authFileContents], [clusterINI]).

    Go strings and byte slices are sequences of bytes: [string] here, and
    [list byte] where the source says [[]byte].  Pointers that the source
    dereferences are [option]s, and a nil dereference is an explicit
    failure of the embedded function. *)

From Stdlib Require Import ZArith Strings.Ascii Strings.Byte Numbers.DecimalString.
From stdpp Require Import base decidable option list sorting strings gmap.

Local Open Scope Z_scope.

(** ** Bytes used by the generators *)

Definition dquote : ascii := ascii_of_nat 34.
Definition newline : ascii := ascii_of_nat 10.
Definition str1 (c : ascii) : string := String c EmptyString.

(** ** Go library functions used by the source *)

(** [fmt.Sprint] and the verb [%d] on an [int32]. *)
Definition fmt_Sprint_int (n : Z) : string :=
  NilZero.string_of_int (Z.to_int n).

(** [strings.ReplaceAll s old new] for a non-empty [old]: occurrences are
    found left to right and do not overlap.  [skip] counts the bytes of a
    matched occurrence that are still to be dropped.  (For an empty [old]
    Go inserts [new] around every rune; the source never does that, and
    this function then returns [s].) *)
Fixpoint strings_Replace_from (old new : string) (skip : nat) (s : string)
  : string :=
  match s with
  | EmptyString => EmptyString
  | String c s' =>
      match skip with
      | S k => strings_Replace_from old new k s'
      | O =>
          if String.prefix old s
          then new +:+ strings_Replace_from old new (String.length old - 1) s'
          else String c (strings_Replace_from old new 0 s')
      end
  end.

Definition strings_ReplaceAll (s old new : string) : string :=
  match old with
  | EmptyString => s
  | _ => strings_Replace_from old new 0 s
  end.

(** [sort.Strings]: increasing byte-wise order. *)
Definition sort_Strings (keys : list string) : list string :=
  merge_sort String.le keys.

(** ** API types ([pkg/apis/.../v1beta1], fields the source reads) *)

Module v1beta1.

Record PGBouncerPodSpec := { PGBouncer_Port : option Z }.

Record PostgresProxySpec := { PGBouncer : option PGBouncerPodSpec }.

Record PostgresInstanceSetSpec := {
  InstanceSet_Name : string;
  InstanceSet_Replicas : Z
}.

Record PostgresClusterSpec := {
  Port : option Z;
  Proxy : option PostgresProxySpec;
  InstanceSets : list PostgresInstanceSetSpec
}.

(** The status: the observed generation, and the remaining fields (the
    sub-component statuses the stages write) as one value [Rest]. *)
Record PostgresClusterStatus (Rest : Type) := {
  ObservedGeneration : Z;
  StatusRest : Rest
}.
Arguments ObservedGeneration {Rest} _.
Arguments StatusRest {Rest} _.

Record PostgresCluster (Rest : Type) := {
  Namespace : string;
  Name : string;
  Generation : Z;
  DeletionTimestamp : option Z;
  Spec : PostgresClusterSpec;
  Status : PostgresClusterStatus Rest
}.
Arguments Namespace {Rest} _.
Arguments Name {Rest} _.
Arguments Generation {Rest} _.
Arguments DeletionTimestamp {Rest} _.
Arguments Spec {Rest} _.
Arguments Status {Rest} _.

Definition GetGeneration {Rest} (c : PostgresCluster Rest) : Z :=
  Generation c.

Definition withStatus {Rest} (c : PostgresCluster Rest)
    (s : PostgresClusterStatus Rest) : PostgresCluster Rest :=
  {| Namespace := Namespace c; Name := Name c; Generation := Generation c;
     DeletionTimestamp := DeletionTimestamp c; Spec := Spec c;
     Status := s |}.

End v1beta1.

(** ** Package [postgres]: host-based authentication rules and parameters *)

Module postgres.

Inductive Origin := OriginUnset | OriginLocal | OriginHost | OriginHostSSL.
Inductive DatabaseField := AllDatabases | ReplicationDatabase
                         | NamedDatabase (name : string).
Inductive UserField := AllUsers | NamedUser (name : string).

(** Modelled from the spec: the builder [postgres.NewHBA] and its
    methods are declared in package [postgres], outside this file.  A
    rule is what §4.3 step 3 and §8 (Ordering) tell of it: where the
    connection comes from (local socket, TCP, TCP with TLS), the
    database (any, the replication pseudo-database, or a named one),
    the user (any or a named one) and the authentication method.  Each
    builder method sets its one field. *)
Record HostBasedAuthentication := {
  origin : Origin;
  database : DatabaseField;
  user : UserField;
  method : string
}.

Definition NewHBA : HostBasedAuthentication :=
  {| origin := OriginUnset; database := AllDatabases; user := AllUsers;
     method := EmptyString |}.

Definition withOrigin (o : Origin) (hba : HostBasedAuthentication) :=
  {| origin := o; database := database hba; user := user hba;
     method := method hba |}.
Definition Local_ := withOrigin OriginLocal.
Definition TCP := withOrigin OriginHost.
Definition TLS := withOrigin OriginHostSSL.

Definition User (name : string) (hba : HostBasedAuthentication) :=
  {| origin := origin hba; database := database hba;
     user := NamedUser name; method := method hba |}.
Definition Database (name : string) (hba : HostBasedAuthentication) :=
  {| origin := origin hba; database := NamedDatabase name;
     user := user hba; method := method hba |}.
Definition Replication (hba : HostBasedAuthentication) :=
  {| origin := origin hba; database := ReplicationDatabase;
     user := user hba; method := method hba |}.
Definition Method (name : string) (hba : HostBasedAuthentication) :=
  {| origin := origin hba; database := database hba; user := user hba;
     method := name |}.

(** [type HBAs struct { Mandatory, Default []HostBasedAuthentication }] *)
Record HBAs := {
  Mandatory : list HostBasedAuthentication;
  Default : list HostBasedAuthentication
}.

Definition appendMandatory (hbas : HBAs) (hba : HostBasedAuthentication) :=
  {| Mandatory := Mandatory hbas ++ [hba]; Default := Default hbas |}.
Definition appendDefault (hbas : HBAs) (hba : HostBasedAuthentication) :=
  {| Mandatory := Mandatory hbas; Default := Default hbas ++ [hba] |}.


(** [postgres.ParameterSet] with [NewParameterSet] and [Add]. *)
Definition NewParameterSet : gmap string string := ∅.
Definition Add (name value : string) (ps : gmap string string)
  : gmap string string := <[name := value]> ps.

Record Parameters := {
  Parameters_Mandatory : gmap string string;
  Parameters_Default : gmap string string
}.

End postgres.

(** ** Kubernetes core types ([k8s.io/api/core/v1], fields the source uses) *)

Module corev1.

Record ConfigMap := { ConfigMap_Name : string }.
Record Secret := { Secret_Name : string }.

Record KeyToPath := { Key : string; Path : string }.

Record ConfigMapProjection := {
  ConfigMapProjection_Name : string;
  ConfigMapProjection_Items : list KeyToPath
}.

Record SecretProjection := {
  SecretProjection_Name : string;
  SecretProjection_Items : list KeyToPath
}.

Record VolumeProjection := {
  VolumeProjection_ConfigMap : option ConfigMapProjection;
  VolumeProjection_Secret : option SecretProjection
}.

(** The paths, relative to the mount point of the volume, at which a
    projection puts its files. *)
Definition paths (p : VolumeProjection) : list string :=
  map Path (default [] (ConfigMapProjection_Items <$> VolumeProjection_ConfigMap p)) ++
  map Path (default [] (SecretProjection_Items <$> VolumeProjection_Secret p)).

End corev1.

(** ** Package [pgbouncer]: the configuration generator *)

Module pgbouncer.
Import v1beta1.

(** Constants and the one naming function that [clusterINI] and
    [authFileContents] use and that other files of the repository
    declare; [poolerRules] are the rules that [PostgreSQL] contributes
    for a cluster. *)
Class Names := {
  poolerRules : PostgresClusterSpec -> list postgres.HostBasedAuthentication;
  postgresqlUser : string;
  certFrontendAbsolutePath : string;
  certFrontendPrivateKeyAbsolutePath : string;
  certFrontendAuthorityAbsolutePath : string;
  certBackendAuthorityAbsolutePath : string;
  ClusterPrimaryService_Name : string -> string
}.

Definition configDirectory : string := "/etc/pgbouncer".
Definition authFileProjectionPath : string := "~postgres-operator/users.txt".
Definition iniFileProjectionPath : string := "~postgres-operator.ini".
Definition authFileAbsolutePath : string :=
  configDirectory +:+ "/" +:+ authFileProjectionPath.
Definition iniFileAbsolutePath : string :=
  configDirectory +:+ "/" +:+ iniFileProjectionPath.

Definition iniGeneratedWarning : string :=
  "# Generated by postgres-operator. DO NOT EDIT." +:+ str1 newline +:+
  "# Your changes will not be saved." +:+ str1 newline.

(** [type iniValueSet map[string]string] is [gmap string string]. *)

(** A Go map is ranged over in an unspecified order that visits every
    key once: any permutation of the keys. *)
Definition rangeOrder (vs : gmap string string) (order : list string) : Prop :=
  order ≡ₚ elements (dom vs).

(** [vs[k]]: the zero value for an absent key. *)
Definition index (vs : gmap string string) (k : string) : string :=
  default EmptyString (vs !! k).

(** [fmt.Fprintf(&b, "%s = %s\n", k, vs[k])] *)
Definition iniLine (vs : gmap string string) (k : string) : string :=
  k +:+ " = " +:+ index vs k +:+ str1 newline.

(** [func (vs iniValueSet) String() string]; [order] is the order in
    which [range vs] yields the keys. *)
Definition iniValueSet_String (vs : gmap string string) (order : list string)
  : string :=
  let keys := foldl (fun keys k => keys ++ [k]) [] order in
  let keys := sort_Strings keys in
  foldl (fun b k => b +:+ iniLine vs k) EmptyString keys.

(** [quote] inside [authFileContents] *)
Definition quote (s : string) : string :=
  str1 dquote +:+ strings_ReplaceAll s (str1 dquote)
                    (String dquote (str1 dquote)) +:+ str1 dquote.

(** [func authFileContents(password []byte) []byte] *)
Definition authFileContents `{Names} (password : list byte) : list byte :=
  let user1 := quote postgresqlUser +:+ " " +:+
               quote (String.string_of_list_byte password) +:+ str1 newline in
  String.list_byte_of_string user1.

Definition early `{Names} : gmap string string :=
  {[ "auth_user" := postgresqlUser ]}.

Definition defaults : gmap string string :=
  {[ "ignore_startup_parameters" := "extra_float_digits" ]}.

Definition mandatory `{Names} (pgBouncerPort : Z) : gmap string string :=
  list_to_map [
    ("auth_file", authFileAbsolutePath);
    ("auth_query", "SELECT username, password from pgbouncer.get_auth($1)");
    ("auth_user", postgresqlUser);
    ("client_tls_sslmode", "require");
    ("client_tls_cert_file", certFrontendAbsolutePath);
    ("client_tls_key_file", certFrontendPrivateKeyAbsolutePath);
    ("client_tls_ca_file", certFrontendAuthorityAbsolutePath);
    ("conffile", iniFileAbsolutePath);
    ("listen_addr", "*");
    ("listen_port", fmt_Sprint_int pgBouncerPort);
    ("server_tls_sslmode", "verify-full");
    ("server_tls_ca_file", certBackendAuthorityAbsolutePath);
    ("unix_socket_dir", "")
  ].

(** The three [range] loops of one call of [clusterINI], one per
    value-set, each with its own iteration order. *)
Record RangeOrders := {
  order_early : list string;
  order_defaults : list string;
  order_mandatory : list string
}.

(** [func clusterINI(cluster *v1beta1.PostgresCluster) string].  [None]
    is the nil-pointer fault of the two dereferences at its head. *)
Definition clusterINI `{Names} {Rest} (cluster : PostgresCluster Rest)
    (o : RangeOrders) : option string :=
  proxy ← Proxy (Spec cluster);
  bouncer ← PGBouncer proxy;
  pgBouncerPort ← PGBouncer_Port bouncer;
  postgresPort ← Port (Spec cluster);
  let databases :=
    "[databases]" +:+ str1 newline +:+
    "* = host=" +:+ ClusterPrimaryService_Name (Name cluster) +:+
    " port=" +:+ fmt_Sprint_int postgresPort +:+ str1 newline in
  Some (iniGeneratedWarning +:+
    str1 newline +:+ "[pgbouncer]" +:+ str1 newline +:+
      iniValueSet_String early (order_early o) +:+ databases +:+
    str1 newline +:+ "[pgbouncer]" +:+ str1 newline +:+
      iniValueSet_String defaults (order_defaults o) +:+
    str1 newline +:+ "[pgbouncer]" +:+ str1 newline +:+
      iniValueSet_String (mandatory pgBouncerPort) (order_mandatory o)).

(** Each of the three orders visits the keys of its value-set once. *)
Definition validOrders `{Names} (o : RangeOrders) : Prop :=
  rangeOrder early (order_early o) ∧
  rangeOrder defaults (order_defaults o) ∧
  ∀ port, rangeOrder (mandatory port) (order_mandatory o).

(** The lines of the keys [keys], in that order. *)
Definition iniLines (vs : gmap string string) (keys : list string) : string :=
  foldr (fun k rest => iniLine vs k +:+ rest) EmptyString keys.

(** Every double quote of a field value written twice (§6, the
    credential file format: "internal quotes doubled"). *)
Fixpoint doubled (s : string) : string :=
  match s with
  | EmptyString => EmptyString
  | String c s' =>
      if Ascii.eqb c dquote then String dquote (String dquote (doubled s'))
      else String c (doubled s')
  end.

(** A field between double quotes. *)
Definition field (s : string) : string :=
  str1 dquote +:+ doubled s +:+ str1 dquote.

(** The inverse of [doubled]: a pair of double quotes is read as one. *)
Fixpoint undoubled (s : string) : string :=
  match s with
  | EmptyString => EmptyString
  | String c s' =>
      match s' with
      | String c' s'' =>
          if Ascii.eqb c dquote && Ascii.eqb c' dquote
          then String dquote (undoubled s'')
          else String c (undoubled s')
      | EmptyString => String c EmptyString
      end
  end.


(** Modelled from the spec: [pgbouncer.PostgreSQL(cluster, &pgHBAs)] is
    declared in another file of the package.  By §4.3 step 3 the
    mandatory prefix is "followed by pooler-contributed rules, followed
    by a default TLS+hash-auth catch-all": the call appends the
    pooler's rules to the mandatory list and leaves the rest alone. *)
Definition PostgreSQL `{Names} {Rest} (cluster : PostgresCluster Rest)
    (outHBAs : postgres.HBAs) : postgres.HBAs :=
  {| postgres.Mandatory :=
       postgres.Mandatory outHBAs ++ poolerRules (Spec cluster);
     postgres.Default := postgres.Default outHBAs |}.

(** The keys of the files in the secret and in the config map. *)
Definition authFileSecretKey : string := "pgbouncer-users.txt".
Definition credentialSecretKey : string := "pgbouncer-verifier".
Definition iniFileConfigMapKey : string := "pgbouncer.ini".

(** [func podConfigFiles(clusterConfigMap *corev1.ConfigMap,
    clusterSecret *corev1.Secret) []corev1.VolumeProjection].  [None] is
    the nil-pointer fault of reading the name of a nil object. *)
Definition podConfigFiles (clusterConfigMap : option corev1.ConfigMap)
    (clusterSecret : option corev1.Secret)
  : option (list corev1.VolumeProjection) :=
  configMap ← clusterConfigMap;
  secret ← clusterSecret;
  Some [
    {| corev1.VolumeProjection_ConfigMap := Some
         {| corev1.ConfigMapProjection_Name := corev1.ConfigMap_Name configMap;
            corev1.ConfigMapProjection_Items :=
              [{| corev1.Key := iniFileConfigMapKey;
                  corev1.Path := iniFileProjectionPath |}] |};
       corev1.VolumeProjection_Secret := None |};
    {| corev1.VolumeProjection_ConfigMap := None;
       corev1.VolumeProjection_Secret := Some
         {| corev1.SecretProjection_Name := corev1.Secret_Name secret;
            corev1.SecretProjection_Items :=
              [{| corev1.Key := authFileSecretKey;
                  corev1.Path := authFileProjectionPath |}] |} |}
  ].

(** The keys of [mandatory] in increasing order. *)
Definition mandatoryKeys : list string :=
  ["auth_file"; "auth_query"; "auth_user"; "client_tls_ca_file";
   "client_tls_cert_file"; "client_tls_key_file"; "client_tls_sslmode";
   "conffile"; "listen_addr"; "listen_port"; "server_tls_ca_file";
   "server_tls_sslmode"; "unix_socket_dir"].

End pgbouncer.

(** ** Package [postgrescluster]: the reconciler *)

Module postgrescluster.
Import v1beta1.

(** [reconcile.Result]; [RequeueAfter] is a [time.Duration]. *)
Record Result := { Requeue : bool; RequeueAfter : Z }.

Definition Result_zero : Result := {| Requeue := false; RequeueAfter := 0 |}.

(** Go [error] values as the source tells them apart: the API's
    not-found error, any other failure, and [errors.WithStack]. *)
Inductive error := NotFound | Failure (msg : string) | WithStack (e : error).

Fixpoint IsNotFound (e : error) : bool :=
  match e with
  | NotFound => true
  | Failure _ => false
  | WithStack e' => IsNotFound e'
  end.

(** [client.IgnoreNotFound] *)
Definition client_IgnoreNotFound (e : error) : option error :=
  if IsNotFound e then None else Some e.

(** [errors.WithStack]: nil stays nil. *)
Definition errors_WithStack (e : option error) : option error :=
  WithStack <$> e.

(** Modelled from the spec: [updateReconcileResult] is declared in
    another file of the package.  By §4.2 aggregation keeps the
    strongest signal seen so far: an immediate requeue dominates, and
    of two delays the smaller one wins; "no preference" (a zero
    [RequeueAfter], no [Requeue]) changes nothing. *)
Definition updateReconcileResult (currResult newResult : Result) : Result :=
  {| Requeue := Requeue currResult || Requeue newResult;
     RequeueAfter :=
       if RequeueAfter newResult =? 0 then RequeueAfter currResult
       else if (RequeueAfter currResult =? 0)
               || (RequeueAfter newResult <? RequeueAfter currResult)
            then RequeueAfter newResult
            else RequeueAfter currResult |}.

(** What the work queue does with a [Result] that comes without an
    error (§4.2: no preference, requeue immediately, requeue after D). *)
Inductive Signal := NoPreference | RequeueImmediately | RequeueAfterDelay (d : Z).

Definition signal (res : Result) : Signal :=
  if 0 <? RequeueAfter res then RequeueAfterDelay (RequeueAfter res)
  else if Requeue res then RequeueImmediately else NoPreference.

(** The types of the platform that the reconciler only hands from one
    stage to the next, the state of the API server, and what the
    packages [naming] and [v1beta1] supply. *)
Class Platform := {
  World : Type;
  StatusFields : Type;
  StatusFields_eq :: EqDecision StatusFields;
  ConfigMap : Type;
  Service : Type;
  Secret : Type;
  SecretProjection : Type;
  RootCertificateAuthority : Type;
  PGReplicationUsername : string;
  defaultSpec : PostgresClusterSpec -> PostgresClusterSpec
}.

Record StatefulSet := { StatefulSet_Name : string }.
Record StatefulSetList := { Items : list StatefulSet }.

Section Reconciler.
Context `{Platform} `{pgbouncer.Names}.

Definition Cluster : Type := PostgresCluster StatusFields.
Definition ClusterStatus : Type := PostgresClusterStatus StatusFields.

Global Instance ClusterStatus_eq : EqDecision ClusterStatus.
Proof. unfold ClusterStatus. solve_decision. Defined.

(** [equality.Semantic.DeepEqual] on two statuses. *)
Definition DeepEqual (a b : ClusterStatus) : bool := bool_decide (a = b).

(** [cluster.Default()]: defaults are filled into the spec. *)
Definition Cluster_Default (cluster : Cluster) : Cluster :=
  {| Namespace := Namespace cluster; Name := Name cluster;
     Generation := Generation cluster;
     DeletionTimestamp := DeletionTimestamp cluster;
     Spec := defaultSpec (Spec cluster); Status := Status cluster |}.

(** What a call of a method of the reconciler gives back: its
    value, its error, and what it did on the way: the status of the
    cluster it was handed by pointer, and the state of the API. *)
Record Ret (A : Type) := {
  value : A;
  err_of : option error;
  status_of : ClusterStatus;
  world_of : World
}.
Arguments value {A} _.
Arguments err_of {A} _.
Arguments status_of {A} _.
Arguments world_of {A} _.

(** [type Reconciler struct]: the client and, as fields, the methods
    that other files of the package declare ([handleDelete] and the
    stages), each with what it returns and what it does to the status of
    the cluster and to the API. *)
Record Reconciler := {
  Client_Get : World -> string * string -> Cluster + error;
  Client_Status_Patch : World -> Cluster -> Cluster -> option error * World;
  handleDelete : Cluster -> World -> Ret (option Result);
  reconcilePatroniStatus : Cluster -> World -> Ret unit;
  reconcilePGUserSecret : Cluster -> World -> Ret (option Secret);
  reconcileClusterConfigMap :
    Cluster -> postgres.HBAs -> postgres.Parameters -> option Secret ->
    World -> Ret (option ConfigMap);
  reconcileRootCertificate :
    Cluster -> World -> Ret (option RootCertificateAuthority);
  reconcileClusterPodService : Cluster -> World -> Ret (option Service);
  reconcilePatroniLeaderLease : Cluster -> World -> Ret (option Service);
  reconcileClusterPrimaryService :
    Cluster -> option Service -> World -> Ret unit;
  reconcileClusterCertificate :
    option RootCertificateAuthority -> Cluster -> World ->
    Ret (option SecretProjection);
  reconcilePatroniDistributedConfiguration : Cluster -> World -> Ret unit;
  reconcilePatroniDynamicConfiguration :
    Cluster -> postgres.HBAs -> postgres.Parameters -> World -> Ret unit;
  reconcileInstanceSet :
    Cluster -> PostgresInstanceSetSpec -> option ConfigMap ->
    option RootCertificateAuthority -> option Service -> option Service ->
    option SecretProjection -> World -> Ret (option StatefulSetList);
  reconcilePGBackRest : Cluster -> list string -> World -> Ret Result;
  reconcilePGBouncer :
    Cluster -> option SecretProjection ->
    option RootCertificateAuthority -> World -> Ret unit
}.

(** *** What an attempt leaves behind *)

Inductive Stage :=
| PatroniStatus
| PGUserSecret
| ClusterConfigMap (pgHBAs : postgres.HBAs)
| RootCertificate
| ClusterPodService
| PatroniLeaderLease
| ClusterPrimaryService
| ClusterCertificate
| PatroniDistributedConfiguration
| PatroniDynamicConfiguration (pgHBAs : postgres.HBAs)
| InstanceSet (spec : PostgresInstanceSetSpec)
| PGBackRest (instancesNames : list string) (next : Result)
| PGBouncer.

Inductive Call :=
| GetCall
| HandleDeleteCall
| StageCall (s : Stage)
| StatusPatchCall.

(** One call of a method of the reconciler or of its client, in the
    order of the calls, and whether it returned an error. *)
Record Entry := { call : Call; failed : bool }.

Definition entry {A} (c : Call) (ret : Ret A) : Entry :=
  {| call := c; failed := bool_decide (is_Some (err_of ret)) |}.

(** [Recorder.Eventf] *)
Record Event := {
  regarding : string * string;
  eventtype : string;
  reason : string;
  message : string
}.

Inductive Outcome :=
| Returned (result : Result) (err : option error)
| Panic.

Record Attempt := {
  outcome : Outcome;
  memory : option Cluster;
  api : World;
  calls : list Entry;
  recorded : list Event
}.

(** *** The local variables of [Reconcile] *)

(** The outputs that stages hand to later stages. *)
Record Outputs := {
  clusterConfigMap : option ConfigMap;
  clusterPodService : option Service;
  patroniLeaderService : option Service;
  primaryCertificate : option SecretProjection;
  pgUser : option Secret;
  rootCA : option RootCertificateAuthority
}.

Record Locals := {
  cluster : Cluster;
  world : World;
  trace : list Entry;
  result : Result;
  err : option error;
  outs : Outputs;
  instancesNames : list string;
  instanceSet : option StatefulSetList
}.

Definition set_outs (f : Outputs -> Outputs) (l : Locals) : Locals :=
  {| cluster := cluster l; world := world l; trace := trace l;
     result := result l; err := err l; outs := f (outs l);
     instancesNames := instancesNames l; instanceSet := instanceSet l |}.

Definition set_clusterConfigMap (v : option ConfigMap) :=
  set_outs (fun o =>
    {| clusterConfigMap := v; clusterPodService := clusterPodService o;
       patroniLeaderService := patroniLeaderService o;
       primaryCertificate := primaryCertificate o; pgUser := pgUser o;
       rootCA := rootCA o |}).
Definition set_clusterPodService (v : option Service) :=
  set_outs (fun o =>
    {| clusterConfigMap := clusterConfigMap o; clusterPodService := v;
       patroniLeaderService := patroniLeaderService o;
       primaryCertificate := primaryCertificate o; pgUser := pgUser o;
       rootCA := rootCA o |}).
Definition set_patroniLeaderService (v : option Service) :=
  set_outs (fun o =>
    {| clusterConfigMap := clusterConfigMap o;
       clusterPodService := clusterPodService o;
       patroniLeaderService := v;
       primaryCertificate := primaryCertificate o; pgUser := pgUser o;
       rootCA := rootCA o |}).
Definition set_primaryCertificate (v : option SecretProjection) :=
  set_outs (fun o =>
    {| clusterConfigMap := clusterConfigMap o;
       clusterPodService := clusterPodService o;
       patroniLeaderService := patroniLeaderService o;
       primaryCertificate := v; pgUser := pgUser o; rootCA := rootCA o |}).
Definition set_pgUser (v : option Secret) :=
  set_outs (fun o =>
    {| clusterConfigMap := clusterConfigMap o;
       clusterPodService := clusterPodService o;
       patroniLeaderService := patroniLeaderService o;
       primaryCertificate := primaryCertificate o; pgUser := v;
       rootCA := rootCA o |}).
Definition set_rootCA (v : option RootCertificateAuthority) :=
  set_outs (fun o =>
    {| clusterConfigMap := clusterConfigMap o;
       clusterPodService := clusterPodService o;
       patroniLeaderService := patroniLeaderService o;
       primaryCertificate := primaryCertificate o; pgUser := pgUser o;
       rootCA := v |}).

Definition set_result (v : Result) (l : Locals) : Locals :=
  {| cluster := cluster l; world := world l; trace := trace l;
     result := v; err := err l; outs := outs l;
     instancesNames := instancesNames l; instanceSet := instanceSet l |}.

Definition set_instanceSet (v : option StatefulSetList) (l : Locals)
  : Locals :=
  {| cluster := cluster l; world := world l; trace := trace l;
     result := result l; err := err l; outs := outs l;
     instancesNames := instancesNames l; instanceSet := v |}.

Definition set_instancesNames (v : list string) (l : Locals) : Locals :=
  {| cluster := cluster l; world := world l; trace := trace l;
     result := result l; err := err l; outs := outs l;
     instancesNames := v; instanceSet := instanceSet l |}.

(** The state after the call [s], which returned [ret]: [err] is
    assigned, the call is recorded, and the cluster and the API are
    as the call left them. *)
Definition called {A} (s : Stage) (ret : Ret A) (l : Locals) : Locals :=
  {| cluster := withStatus (cluster l) (status_of ret);
     world := world_of ret;
     trace := trace l ++ [entry (StageCall s) ret];
     result := result l; err := err_of ret; outs := outs l;
     instancesNames := instancesNames l; instanceSet := instanceSet l |}.

(** [if err == nil { v, err = r.stage(...) }]: [run] is the call,
    [name] its entry in the record, [store] the assignment of its
    value. *)
Definition stage {A} (name : Locals -> Ret A -> Stage)
    (run : Locals -> Ret A) (store : A -> Locals -> Locals)
    (l : Locals) : Locals :=
  match err l with
  | None => let ret := run l in store (value ret) (called (name l ret) ret l)
  | Some _ => l
  end.

Definition discard (_ : unit) (l : Locals) : Locals := l.

(** *** [Reconcile], lines 149-183: rules and parameters *)

Definition hbaLocalPeer : postgres.HostBasedAuthentication :=
  postgres.Method "peer"
    (postgres.User "postgres" (postgres.Local_ postgres.NewHBA)).
Definition hbaReplication : postgres.HostBasedAuthentication :=
  postgres.Method "md5"
    (postgres.Replication
       (postgres.User PGReplicationUsername (postgres.TCP postgres.NewHBA))).
Definition hbaReplicationPostgres : postgres.HostBasedAuthentication :=
  postgres.Method "md5"
    (postgres.Database "postgres"
       (postgres.User PGReplicationUsername (postgres.TCP postgres.NewHBA))).
Definition hbaReplicationReject : postgres.HostBasedAuthentication :=
  postgres.Method "reject"
    (postgres.User PGReplicationUsername (postgres.TCP postgres.NewHBA)).
Definition hbaDefault : postgres.HostBasedAuthentication :=
  postgres.Method "md5" (postgres.TLS postgres.NewHBA).

Definition build_pgHBAs (cluster : Cluster) : postgres.HBAs :=
  let pgHBAs := {| postgres.Mandatory := []; postgres.Default := [] |} in
  let pgHBAs := postgres.appendMandatory pgHBAs hbaLocalPeer in
  let pgHBAs := postgres.appendMandatory pgHBAs hbaReplication in
  let pgHBAs := postgres.appendMandatory pgHBAs hbaReplicationPostgres in
  let pgHBAs := postgres.appendMandatory pgHBAs hbaReplicationReject in
  let pgHBAs := pgbouncer.PostgreSQL cluster pgHBAs in
  postgres.appendDefault pgHBAs hbaDefault.

Definition build_pgParameters : postgres.Parameters :=
  {| postgres.Parameters_Mandatory :=
       postgres.Add "ssl_ca_file" "/pgconf/tls/ca.crt"
         (postgres.Add "ssl_key_file" "/pgconf/tls/tls.key"
            (postgres.Add "ssl_cert_file" "/pgconf/tls/tls.crt"
               (postgres.Add "ssl" "on"
                  (postgres.Add "wal_level" "logical"
                     postgres.NewParameterSet))));
     postgres.Parameters_Default :=
       postgres.Add "password_encryption" "scram-sha-256"
         (postgres.Add "jit" "off" postgres.NewParameterSet) |}.

(** *** Lines 185-214: the stages before the instance sets *)

Definition stagesBeforeInstanceSets (r : Reconciler)
    (pgHBAs : postgres.HBAs) (pgParameters : postgres.Parameters)
    (l : Locals) : Locals :=
  let l := stage (fun _ _ => PatroniStatus)
    (fun l => reconcilePatroniStatus r (cluster l) (world l)) discard l in
  let l := stage (fun _ _ => PGUserSecret)
    (fun l => reconcilePGUserSecret r (cluster l) (world l)) set_pgUser l in
  let l := stage (fun _ _ => ClusterConfigMap pgHBAs)
    (fun l => reconcileClusterConfigMap r (cluster l) pgHBAs pgParameters
                (pgUser (outs l)) (world l)) set_clusterConfigMap l in
  let l := stage (fun _ _ => RootCertificate)
    (fun l => reconcileRootCertificate r (cluster l) (world l)) set_rootCA l in
  let l := stage (fun _ _ => ClusterPodService)
    (fun l => reconcileClusterPodService r (cluster l) (world l))
    set_clusterPodService l in
  let l := stage (fun _ _ => PatroniLeaderLease)
    (fun l => reconcilePatroniLeaderLease r (cluster l) (world l))
    set_patroniLeaderService l in
  let l := stage (fun _ _ => ClusterPrimaryService)
    (fun l => reconcileClusterPrimaryService r (cluster l)
                (patroniLeaderService (outs l)) (world l)) discard l in
  let l := stage (fun _ _ => ClusterCertificate)
    (fun l => reconcileClusterCertificate r (rootCA (outs l)) (cluster l)
                (world l)) set_primaryCertificate l in
  let l := stage (fun _ _ => PatroniDistributedConfiguration)
    (fun l => reconcilePatroniDistributedConfiguration r (cluster l)
                (world l)) discard l in
  stage (fun _ _ => PatroniDynamicConfiguration pgHBAs)
    (fun l => reconcilePatroniDynamicConfiguration r (cluster l) pgHBAs
                pgParameters (world l)) discard l.

(** *** Lines 216-228: the instance sets *)

(** A run either goes on with its local variables or has stopped at a
    nil-pointer dereference. *)
Inductive Exec := Running (l : Locals) | Panicked (l : Locals).

(** [for _, instance := range instanceSet.Items] *)
Definition collectNames (names : list string) (sts : StatefulSetList)
  : list string :=
  foldl (fun names instance => names ++ [StatefulSet_Name instance])
    names (Items sts).

Fixpoint instanceSetsLoop (r : Reconciler)
    (sets : list PostgresInstanceSetSpec) (l : Locals) : Exec :=
  match sets with
  | [] => Running l
  | spec :: rest =>
      match err l with
      | None =>
          let ret := reconcileInstanceSet r (cluster l) spec
                       (clusterConfigMap (outs l)) (rootCA (outs l))
                       (clusterPodService (outs l))
                       (patroniLeaderService (outs l))
                       (primaryCertificate (outs l)) (world l) in
          let l := set_instanceSet (value ret)
                     (called (InstanceSet spec) ret l) in
          match instanceSet l with
          | None => Panicked l
          | Some sts =>
              instanceSetsLoop r rest
                (set_instancesNames (collectNames (instancesNames l) sts) l)
          end
      | Some _ => instanceSetsLoop r rest l
      end
  end.

(** *** Lines 85-92 and 230-235: the stages after the instance sets *)

(** The closure [updateResult], applied to what a stage returned;
    [err l] is the error that the stage returned. *)
Definition updateResult (next : Result) (l : Locals) : Locals :=
  match err l with
  | None => set_result (updateReconcileResult (result l) next) l
  | Some _ => l
  end.

Definition stagesAfterInstanceSets (r : Reconciler) (l : Locals) : Locals :=
  let l := stage (fun l ret => PGBackRest (instancesNames l) (value ret))
    (fun l => reconcilePGBackRest r (cluster l) (instancesNames l) (world l))
    updateResult l in
  stage (fun _ _ => PGBouncer)
    (fun l => reconcilePGBouncer r (cluster l) (primaryCertificate (outs l))
                (rootCA (outs l)) (world l)) discard l.

Definition locals0 (cluster : Cluster) (w : World) (t : list Entry)
  : Locals :=
  {| cluster := cluster; world := w; trace := t; result := Result_zero;
     err := None;
     outs := {| clusterConfigMap := None; clusterPodService := None;
                patroniLeaderService := None; primaryCertificate := None;
                pgUser := None; rootCA := None |};
     instancesNames := []; instanceSet := None |}.

(** Lines 149-235. *)
Definition pipeline (r : Reconciler) (l : Locals) : Exec :=
  let l := stagesBeforeInstanceSets r (build_pgHBAs (cluster l))
             build_pgParameters l in
  match instanceSetsLoop r (InstanceSets (Spec (cluster l))) l with
  | Running l => Running (stagesAfterInstanceSets r l)
  | Panicked l => Panicked l
  end.

(** *** Lines 239-252: observed generation, status, return *)

Definition observe (cluster : Cluster) : Cluster :=
  withStatus cluster
    {| ObservedGeneration := GetGeneration cluster;
       StatusRest := StatusRest (Status cluster) |}.

Definition finish (r : Reconciler) (before : Cluster) (l : Locals)
  : Attempt :=
  let cluster := observe (cluster l) in
  match err l with
  | None =>
      if negb (DeepEqual (Status before) (Status cluster)) then
        let p := Client_Status_Patch r (world l) cluster before in
        {| outcome := Returned (result l) (errors_WithStack (fst p));
           memory := Some cluster; api := snd p;
           calls := trace l ++
             [{| call := StatusPatchCall;
                 failed := bool_decide (is_Some (fst p)) |}];
           recorded := [] |}
      else
        {| outcome := Returned (result l) None; memory := Some cluster;
           api := world l; calls := trace l; recorded := [] |}
  | Some e =>
      {| outcome := Returned (result l) (Some e); memory := Some cluster;
         api := world l; calls := trace l; recorded := [] |}
  end.

(** Lines 149-252: what [Reconcile] does once deletion and the name
    are dealt with. *)
Definition reconcileCluster (r : Reconciler) (before current : Cluster)
    (w : World) (t : list Entry) : Attempt :=
  match pipeline r (locals0 current w t) with
  | Running l => finish r before l
  | Panicked l =>
      {| outcome := Panic; memory := Some (cluster l); api := world l;
         calls := trace l; recorded := [] |}
  end.

(** *** [Reconcile] *)

(** What [Reconcile] reads of its [ctx]: whether the logger writes
    at verbosity 1. *)
Record Context := { LogV1Enabled : bool }.

(** Lines 129-136: [result.Requeue = true] on the result that
    [handleDelete] returned, before it is logged. *)
Definition logDeleting (ctx : Context) (result : Result) : Result :=
  if LogV1Enabled ctx then
    if 0 <? RequeueAfter result
    then {| Requeue := true; RequeueAfter := RequeueAfter result |}
    else result
  else result.

Definition invalidName (cluster : Cluster) : Event :=
  {| regarding := (Namespace cluster, Name cluster);
     eventtype := "Warning"; reason := "InvalidName";
     message := str1 dquote +:+ Name cluster +:+ str1 dquote +:+
                " is not allowed" |}.

Definition Reconcile (r : Reconciler) (ctx : Context)
    (request : string * string) (w : World) : Attempt :=
  let result := Result_zero in
  match Client_Get r w request with
  | inr err =>
      {| outcome := Returned result (client_IgnoreNotFound err);
         memory := None; api := w;
         calls := [{| call := GetCall; failed := true |}];
         recorded := [] |}
  | inl cluster =>
      let t := [{| call := GetCall; failed := false |}] in
      let cluster := Cluster_Default cluster in
      let before := cluster in
      let del := handleDelete r cluster w in
      let t := t ++ [entry HandleDeleteCall del] in
      let cluster := withStatus cluster (status_of del) in
      let w := world_of del in
      match err_of del, value del with
      | Some err, _ =>
          {| outcome := Returned Result_zero (Some err);
             memory := Some cluster; api := w; calls := t;
             recorded := [] |}
      | None, Some result =>
          {| outcome := Returned (logDeleting ctx result) None;
             memory := Some cluster; api := w; calls := t;
             recorded := [] |}
      | None, None =>
          if bool_decide (Name cluster = "postgres") then
            {| outcome := Returned result None; memory := Some cluster;
               api := w; calls := t; recorded := [invalidName cluster] |}
          else reconcileCluster r before cluster w t
      end
  end.

(** *** Properties of the record of calls *)

Definition allOk (t : list Entry) : Prop :=
  Forall (fun e => failed e = false) t.

(** A call that returned an error is the last call. *)
Definition onlyLastFails (t : list Entry) : Prop :=
  forall pre x post, t = pre ++ x :: post -> failed x = true -> post = [].

Definition isStageCall (e : Entry) : Prop :=
  match call e with StageCall _ => True | _ => False end.

Definition isStatusPatch (e : Entry) : Prop :=
  match call e with StatusPatchCall => True | _ => False end.

Definition noStageRan (a : Attempt) : Prop :=
  Forall (fun e => ~ isStageCall e) (calls a).

Definition statusPatched (a : Attempt) : Prop :=
  Exists isStatusPatch (calls a).


(** The stage of the last call, when that call is a stage that
    returned an error. *)
Definition failedStage (t : list Entry) : option Stage :=
  match last t with
  | Some {| call := StageCall s; failed := true |} => Some s
  | _ => None
  end.

Definition isPGBouncer (s : Stage) : bool :=
  match s with PGBouncer => true | _ => false end.

(** The outcome that [reconcilePGBackRest] returned without error,
    as the record of calls has it. *)
Definition backrestNext (e : Entry) : option Result :=
  match call e, failed e with
  | StageCall (PGBackRest _ next), false => Some next
  | _, _ => None
  end.


(** *** Invariants of the stages *)

(** An assignment of a stage's value that leaves the cluster, the API,
    the record of calls, the result and the error as they are. *)
Definition keeps {A} (store : A -> Locals -> Locals) : Prop :=
  forall a l,
    cluster (store a l) = cluster l /\ world (store a l) = world l /\
    trace (store a l) = trace l /\ result (store a l) = result l /\
    err (store a l) = err l.

(** [P] holds again after any stage whose name satisfies [Q] has run. *)
Definition preserved (Q : Stage -> Prop) (P : Locals -> Prop) : Prop :=
  forall A (s : Stage) (ret : Ret A) (store : A -> Locals -> Locals) l,
    keeps store -> Q s -> err l = None -> P l ->
    P (store (value ret) (called s ret l)).

Definition resultBlind (P : Locals -> Prop) : Prop :=
  forall v l, P l -> P (set_result v l).

Definition holds (P : Locals -> Prop) (x : Exec) : Prop :=
  match x with Running l => P l | Panicked l => P l end.

Definition anyStage (s : Stage) : Prop := True.

Definition notPGBackRest (s : Stage) : Prop :=
  match s with PGBackRest _ _ => False | _ => True end.

(** The names of the stages before the instance sets. *)
Definition beforeInstanceSets (pgHBAs : postgres.HBAs) : list Stage :=
  [PatroniStatus; PGUserSecret; ClusterConfigMap pgHBAs; RootCertificate;
   ClusterPodService; PatroniLeaderLease; ClusterPrimaryService;
   ClusterCertificate; PatroniDistributedConfiguration;
   PatroniDynamicConfiguration pgHBAs].

(** The last call failed, and no call before it did. *)
Definition endsInFailure (t : list Entry) : Prop :=
  exists pre x, t = pre ++ [x] /\ allOk pre /\ failed x = true.

(** No call has failed while [err] is nil; once it is not, the call that
    failed is the last one. *)
Definition failFast (l : Locals) : Prop :=
  match err l with
  | None => allOk (trace l)
  | Some _ => endsInFailure (trace l)
  end.



Definition noPatchYet (l : Locals) : Prop :=
  Forall (fun e => ~ isStatusPatch e) (trace l).

(** Nothing was merged into the result yet. *)
Definition resultUntouched (l : Locals) : Prop :=
  result l = Result_zero /\ omap backrestNext (trace l) = [].


(** The stages write the status of the cluster and nothing else of it. *)
Definition sameObject (c : Cluster) (l : Locals) : Prop :=
  Namespace (cluster l) = Namespace c /\ Name (cluster l) = Name c /\
  Generation (cluster l) = Generation c /\
  DeletionTimestamp (cluster l) = DeletionTimestamp c /\
  Spec (cluster l) = Spec c.

(** The record of calls when the pipeline is entered. *)
Definition fetched : list Entry :=
  [{| call := GetCall; failed := false |};
   {| call := HandleDeleteCall; failed := false |}].

(** The local variables when the loop over the instance sets is entered. *)
Definition atInstanceSets (r : Reconciler) (c : Cluster) (w : World)
  : Locals :=
  stagesBeforeInstanceSets r (build_pgHBAs c) build_pgParameters
    (locals0 c w fetched).

(** What [handleDelete] returns for the cluster that was fetched, and
    the cluster in memory after that call. *)
Definition handled (r : Reconciler) (c : Cluster) (w : World)
  : Ret (option Result) :=
  handleDelete r (Cluster_Default c) w.

Definition current (r : Reconciler) (c : Cluster) (w : World) : Cluster :=
  withStatus (Cluster_Default c) (status_of (handled r c w)).

(** *** The order of the calls *)

(** The stages of a run in which nothing fails, in the order of the
    source; [names] and [next] are what the backup stage is handed and
    what it returns. *)
Definition plan (c : Cluster) (names : list string) (next : Result)
  : list Stage :=
  beforeInstanceSets (build_pgHBAs c) ++
  map InstanceSet (InstanceSets (Spec c)) ++
  [PGBackRest names next; PGBouncer].

(** The calls of such a run that ends with a status patch. *)
Definition fullRun (c : Cluster) (names : list string) (next : Result)
  : list Call :=
  GetCall :: HandleDeleteCall ::
  map StageCall (plan c names next) ++ [StatusPatchCall].

(** An assignment of a stage's value that leaves the record of calls and
    the error as they are. *)
Definition frames {A} (store : A -> Locals -> Locals) : Prop :=
  forall a l, trace (store a l) = trace l /\ err (store a l) = err l.

(** From [l] to [l'] the stages [p] were called, in that order, up to
    the first that failed: all of them when [err] is still nil, none of
    them when it was not nil before. *)
Definition advances (p : list Stage) (l l' : Locals) : Prop :=
  exists k : nat,
    (k <= length p)%nat /\
    map call (trace l') = map call (trace l) ++ map StageCall (take k p) /\
    (err l' = None -> k = length p) /\
    (err l <> None -> k = 0%nat /\ err l' <> None).

(** The same for the loop over the instance sets, which may stop at a
    nil list right after the call for one of the sets. *)
Definition loopAdvances (sets : list PostgresInstanceSetSpec) (l : Locals)
    (x : Exec) : Prop :=
  match x with
  | Running l' => advances (map InstanceSet sets) l l'
  | Panicked l' =>
      err l = None /\
      exists j spec, sets !! j = Some spec /\
        map call (trace l') =
          map call (trace l) ++
          map StageCall (map InstanceSet (take j sets)) ++
          [StageCall (InstanceSet spec)]
  end.


(** *** Stages that report nothing new *)

(** No stage changes the status of the cluster it is handed. *)
Definition leavesStatus (r : Reconciler) : Prop :=
  (forall c w, status_of (reconcilePatroniStatus r c w) = Status c) /\
  (forall c w, status_of (reconcilePGUserSecret r c w) = Status c) /\
  (forall c h p u w,
     status_of (reconcileClusterConfigMap r c h p u w) = Status c) /\
  (forall c w, status_of (reconcileRootCertificate r c w) = Status c) /\
  (forall c w, status_of (reconcileClusterPodService r c w) = Status c) /\
  (forall c w, status_of (reconcilePatroniLeaderLease r c w) = Status c) /\
  (forall c s w,
     status_of (reconcileClusterPrimaryService r c s w) = Status c) /\
  (forall ca c w,
     status_of (reconcileClusterCertificate r ca c w) = Status c) /\
  (forall c w,
     status_of (reconcilePatroniDistributedConfiguration r c w) = Status c) /\
  (forall c h p w,
     status_of (reconcilePatroniDynamicConfiguration r c h p w) = Status c) /\
  (forall c spec cm ca s1 s2 cert w,
     status_of (reconcileInstanceSet r c spec cm ca s1 s2 cert w) = Status c) /\
  (forall c names w, status_of (reconcilePGBackRest r c names w) = Status c) /\
  (forall c cert ca w, status_of (reconcilePGBouncer r c cert ca w) = Status c).

(** A call that leaves the status of the cluster in memory as it is. *)
Definition statusKeeping {A} (run : Locals -> Ret A) : Prop :=
  forall l, status_of (run l) = Status (cluster l).

End Reconciler.

Arguments value {_ A} _.
Arguments err_of {_ A} _.
Arguments status_of {_ A} _.
Arguments world_of {_ A} _.

End postgrescluster.

(** ** A small cluster and scripted reconcilers *)

Module demo.
Import v1beta1 postgrescluster.

(** The API state is the list of the writes made so far. *)
#[export] Instance platform : Platform := {|
  World := list string;
  StatusFields := list string;
  ConfigMap := unit;
  Service := unit;
  Secret := unit;
  SecretProjection := unit;
  RootCertificateAuthority := unit;
  PGReplicationUsername := "_crunchyrepl";
  defaultSpec := fun spec => spec
|}.

#[export] Instance names : pgbouncer.Names := {|
  pgbouncer.poolerRules := fun _ =>
    [postgres.Method "md5"
       (postgres.User "_crunchypgbouncer" (postgres.TLS postgres.NewHBA))];
  pgbouncer.postgresqlUser := "_crunchypgbouncer";
  pgbouncer.certFrontendAbsolutePath := "/etc/pgbouncer/frontend.crt";
  pgbouncer.certFrontendPrivateKeyAbsolutePath := "/etc/pgbouncer/frontend.key";
  pgbouncer.certFrontendAuthorityAbsolutePath := "/etc/pgbouncer/frontend-ca.crt";
  pgbouncer.certBackendAuthorityAbsolutePath := "/etc/pgbouncer/backend-ca.crt";
  pgbouncer.ClusterPrimaryService_Name := fun name => name +:+ "-primary"
|}.

Definition seconds (n : Z) : Z := n * 1000000000.

Definition instance1 : PostgresInstanceSetSpec :=
  {| InstanceSet_Name := "instance1"; InstanceSet_Replicas := 1 |}.

(** A cluster at generation 2 whose status has seen generation 1. *)
Definition aCluster (name : string) (deletion : option Z) : Cluster :=
  {| Namespace := "ns"; Name := name; Generation := 2;
     DeletionTimestamp := deletion;
     Spec := {| Port := Some 5432;
                Proxy := Some {| v1beta1.PGBouncer :=
                                   Some {| PGBouncer_Port := Some 6432 |} |};
                InstanceSets := [instance1] |};
     Status := {| ObservedGeneration := 1; StatusRest := [] |} |}.

(** A call named [what]: it writes once, leaves the status alone, and
    fails when the script says so. *)
Definition does {A} (fails : string -> bool) (what : string) (v : A)
    (c : Cluster) (w : World) : Ret A :=
  {| value := v;
     err_of := if fails what then Some (Failure what) else None;
     status_of := Status c; world_of := w ++ [what] |}.

(** Modelled from the spec: [handleDelete] is declared in another file
    of the package.  By §4.1 step 4, "if the object is marked for
    deletion, run deletion-specific cleanup and return its outcome
    directly": for such a cluster the cleanup runs and its result (or its
    error) is returned; for any other cluster nothing is done and the
    result is [nil, nil]. *)
Definition deletes (fails : string -> bool) (cleanup : Result) (c : Cluster)
    (w : World) : Ret (option Result) :=
  match DeletionTimestamp c with
  | None =>
      {| value := None; err_of := None; status_of := Status c; world_of := w |}
  | Some _ => does fails "deletionCleanup" (Some cleanup) c w
  end.

(** A reconciler that finds [stored], whose calls fail as [fails]
    says, whose backup stage asks for [next], whose instance-set stage
    returns [sts] and whose deletion cleanup returns [cleanup]. *)
Definition reconciler (stored : Cluster) (fails : string -> bool)
    (next : Result) (sts : option StatefulSetList) (cleanup : Result)
  : Reconciler :=
  {| Client_Get := fun _ request =>
       if bool_decide (request = (Namespace stored, Name stored))
       then inl stored else inr NotFound;
     Client_Status_Patch := fun w _ _ =>
       (if fails "StatusPatch" then Some (Failure "StatusPatch") else None,
        w ++ ["StatusPatch"]);
     handleDelete := deletes fails cleanup;
     reconcilePatroniStatus := does fails "PatroniStatus" ();
     reconcilePGUserSecret := does fails "PGUserSecret" (Some ());
     reconcileClusterConfigMap := fun c _ _ _ =>
       does fails "ClusterConfigMap" (Some ()) c;
     reconcileRootCertificate := does fails "RootCertificate" (Some ());
     reconcileClusterPodService := does fails "ClusterPodService" (Some ());
     reconcilePatroniLeaderLease := does fails "PatroniLeaderLease" (Some ());
     reconcileClusterPrimaryService := fun c _ =>
       does fails "ClusterPrimaryService" () c;
     reconcileClusterCertificate := fun _ =>
       does fails "ClusterCertificate" (Some ());
     reconcilePatroniDistributedConfiguration :=
       does fails "PatroniDistributedConfiguration" ();
     reconcilePatroniDynamicConfiguration := fun c _ _ =>
       does fails "PatroniDynamicConfiguration" () c;
     reconcileInstanceSet := fun c _ _ _ _ _ _ =>
       does fails "InstanceSet" sts c;
     reconcilePGBackRest := fun c _ => does fails "PGBackRest" next c;
     reconcilePGBouncer := fun c _ _ => does fails "PGBouncer" () c |}.

Definition nothingFails (what : string) : bool := false.
Definition failsAt (stage what : string) : bool := bool_decide (what = stage).

Definition oneInstance : option StatefulSetList :=
  Some {| Items := [{| StatefulSet_Name := "demo-instance1" |}] |}.

Definition quiet : Context := {| LogV1Enabled := false |}.
Definition verbose : Context := {| LogV1Enabled := true |}.

Definition after (d : Z) : Result := {| Requeue := false; RequeueAfter := d |}.

Definition validOrders0 : pgbouncer.RangeOrders :=
  {| pgbouncer.order_early := ["auth_user"];
     pgbouncer.order_defaults := ["ignore_startup_parameters"];
     pgbouncer.order_mandatory :=
       ["server_tls_sslmode"; "server_tls_ca_file"; "conffile";
        "client_tls_key_file"; "client_tls_sslmode"; "client_tls_cert_file";
        "client_tls_ca_file"; "unix_socket_dir"; "auth_user"; "auth_query";
        "auth_file"; "listen_addr"; "listen_port"] |}.

Definition validOrders1 : pgbouncer.RangeOrders :=
  {| pgbouncer.order_early := ["auth_user"];
     pgbouncer.order_defaults := ["ignore_startup_parameters"];
     pgbouncer.order_mandatory :=
       ["listen_port"; "listen_addr"; "auth_file"; "auth_query"; "auth_user";
        "unix_socket_dir"; "client_tls_ca_file"; "client_tls_cert_file";
        "client_tls_sslmode"; "client_tls_key_file"; "conffile";
        "server_tls_ca_file"; "server_tls_sslmode"] |}.

End demo.

(** * Proofs *)

(** ** The configuration generator *)

Section Strings.
Import pgbouncer.

Lemma append_cons (x : ascii) (a b : string) :
  String x a +:+ b = String x (a +:+ b).
Proof. reflexivity. Qed.

Lemma append_empty_l (a : string) : EmptyString +:+ a = a.
Proof. reflexivity. Qed.

Lemma append_assoc (a b c : string) : (a +:+ b) +:+ c = a +:+ (b +:+ c).
Proof.
  induction a as [|x a IH]; [done|]. rewrite !append_cons. by f_equal.
Qed.

Lemma append_empty_r (a : string) : a +:+ EmptyString = a.
Proof. induction a as [|x a IH]; [done|]. rewrite append_cons. by f_equal. Qed.

Lemma prefix_dquote (c : ascii) (s : string) :
  String.prefix (str1 dquote) (String c s) = Ascii.eqb c dquote.
Proof.
  change (String.prefix (str1 dquote) (String c s))
    with (if ascii_dec dquote c then String.prefix EmptyString s else false).
  destruct (ascii_dec dquote c) as [<-|Hne].
  - rewrite Ascii.eqb_refl. by destruct s.
  - symmetry. apply Ascii.eqb_neq. congruence.
Qed.

(** Replacing every double quote by two is [doubled]. *)
Lemma ReplaceAll_dquote (s : string) :
  strings_ReplaceAll s (str1 dquote) (String dquote (str1 dquote)) = doubled s.
Proof.
  unfold strings_ReplaceAll, str1 at 1.
  induction s as [|c s IH]; [done|].
  cbn [strings_Replace_from doubled].
  change (String dquote EmptyString) with (str1 dquote).
  rewrite prefix_dquote. destruct (Ascii.eqb c dquote); simpl; by rewrite <- IH.
Qed.

Lemma quote_field (s : string) : quote s = field s.
Proof. unfold quote, field. by rewrite ReplaceAll_dquote. Qed.

Lemma undoubled_doubled (s : string) : undoubled (doubled s) = s.
Proof.
  induction s as [|c s IH]; [done|]. simpl.
  destruct (Ascii.eqb c dquote) eqn:Hc.
  - apply Ascii.eqb_eq in Hc as ->. simpl. by rewrite IH.
  - simpl. rewrite Hc. simpl. destruct (doubled s) eqn:Hd.
    + simpl in IH. by rewrite <- IH.
    + by rewrite IH.
Qed.







Lemma collect_keys (acc order : list string) :
  foldl (fun keys k => keys ++ [k]) acc order = acc ++ order.
Proof.
  revert acc. induction order as [|k order IH]; intros acc; simpl.
  - by rewrite app_nil_r.
  - rewrite IH. by rewrite <- app_assoc.
Qed.

Lemma builder_lines (vs : gmap string string) (b : string) (keys : list string) :
  foldl (fun b k => b +:+ iniLine vs k) b keys = b +:+ iniLines vs keys.
Proof.
  revert b. induction keys as [|k keys IH]; intros b; simpl.
  - by rewrite append_empty_r.
  - rewrite IH. by rewrite append_assoc.
Qed.

Lemma iniValueSet_String_lines (vs : gmap string string) (order : list string) :
  iniValueSet_String vs order = iniLines vs (sort_Strings order).
Proof.
  unfold iniValueSet_String. rewrite collect_keys, builder_lines. done.
Qed.

Lemma sort_Strings_sorted (keys : list string) :
  StronglySorted String.le (sort_Strings keys).
Proof. apply StronglySorted_merge_sort; apply _. Qed.

Lemma sort_Strings_permutation (keys : list string) : sort_Strings keys ≡ₚ keys.
Proof. apply merge_sort_Permutation. Qed.

(** The sorted list of keys does not depend on the order they came in. *)
Lemma sort_Strings_order (keys1 keys2 : list string) :
  keys1 ≡ₚ keys2 → sort_Strings keys1 = sort_Strings keys2.
Proof.
  intros Hp. apply (StronglySorted_unique String.le);
    [apply sort_Strings_sorted .. |].
  by rewrite !sort_Strings_permutation.
Qed.

Lemma iniValueSet_String_order (vs : gmap string string) (o1 o2 : list string) :
  rangeOrder vs o1 → rangeOrder vs o2 →
  iniValueSet_String vs o1 = iniValueSet_String vs o2.
Proof.
  unfold rangeOrder. intros H1 H2. rewrite !iniValueSet_String_lines.
  f_equal. apply sort_Strings_order. by rewrite H1, H2.
Qed.

(** C8: the generator is deterministic.  Whatever the orders in which
    the three maps are ranged over, [clusterINI] gives the same text for
    the same cluster, and [authFileContents] the same bytes for the same
    password; a value-set is written as the lines of its keys in
    increasing order. *)
Theorem configuration_deterministic `{Names} {Rest}
    (cluster : v1beta1.PostgresCluster Rest) (o1 o2 : RangeOrders)
    (password1 password2 : list byte) :
  validOrders o1 → validOrders o2 → password1 = password2 →
  clusterINI cluster o1 = clusterINI cluster o2 ∧
  authFileContents password1 = authFileContents password2 ∧
  ∀ (vs : gmap string string) (order : list string),
    rangeOrder vs order →
    ∃ keys, keys ≡ₚ elements (dom vs) ∧ StronglySorted String.le keys ∧
            iniValueSet_String vs order = iniLines vs keys.
Proof.
  intros (He1 & Hd1 & Hm1) (He2 & Hd2 & Hm2) ->. split_and!; [|done|].
  - unfold clusterINI.
    destruct (v1beta1.Proxy (v1beta1.Spec cluster)) as [proxy|]; [|done]; simpl.
    destruct (v1beta1.PGBouncer proxy) as [bouncer|]; [|done]; simpl.
    destruct (v1beta1.PGBouncer_Port bouncer) as [port|]; [|done]; simpl.
    destruct (v1beta1.Port (v1beta1.Spec cluster)) as [pgport|]; [|done]; simpl.
    rewrite (iniValueSet_String_order early _ _ He1 He2).
    rewrite (iniValueSet_String_order defaults _ _ Hd1 Hd2).
    by rewrite (iniValueSet_String_order (mandatory port) _ _ (Hm1 port) (Hm2 port)).
  - intros vs order Ho. exists (sort_Strings order). split_and!.
    + by rewrite sort_Strings_permutation.
    + apply sort_Strings_sorted.
    + apply iniValueSet_String_lines.
Qed.

(** *** The credential file tells passwords apart *)

Lemma append_inj_l (a b c : string) : a +:+ b = a +:+ c -> b = c.
Proof.
  induction a as [|x a IH]; [done|]. rewrite !append_cons. intros [= Heq].
  by apply IH.
Qed.

Lemma append_str1_inj (a b : string) (x : ascii) :
  a +:+ str1 x = b +:+ str1 x -> a = b.
Proof.
  revert b. induction a as [|y a IH]; intros [|z b]; rewrite ?append_cons.
  - done.
  - rewrite append_empty_l. unfold str1. intros [= _ Hb].
    by destruct b.
  - rewrite append_empty_l. unfold str1. intros [= _ Ha].
    by destruct a.
  - intros [= -> Heq]. f_equal. by apply IH.
Qed.

Lemma doubled_inj (s1 s2 : string) : doubled s1 = doubled s2 -> s1 = s2.
Proof.
  intros Heq. apply (f_equal undoubled) in Heq.
  by rewrite !undoubled_doubled in Heq.
Qed.

Lemma field_inj (s1 s2 : string) : field s1 = field s2 -> s1 = s2.
Proof.
  unfold field. intros Heq%append_inj_l%append_str1_inj. by apply doubled_inj.
Qed.

(** The credential file determines the password: two passwords give the
    same file only when they are the same bytes.  Doubling the double
    quotes loses nothing. *)
Theorem authFileContents_injective `{Names} (password1 password2 : list byte) :
  authFileContents password1 = authFileContents password2 <->
  password1 = password2.
Proof.
  split; [|by intros ->]. unfold authFileContents. intros Heq.
  apply (f_equal String.string_of_list_byte) in Heq.
  rewrite !String.string_of_list_byte_of_string, !quote_field in Heq.
  apply append_inj_l, append_inj_l, append_str1_inj, field_inj in Heq.
  apply (f_equal String.list_byte_of_string) in Heq.
  by rewrite !String.list_byte_of_string_of_list_byte in Heq.
Qed.

(** *** The text of the configuration file *)

(** The keys of a value-set come out in the one sorted order. *)
Lemma sort_Strings_keys (vs : gmap string string) (order keys : list string) :
  rangeOrder vs order -> StronglySorted String.le keys ->
  keys ≡ₚ elements (dom vs) -> sort_Strings order = keys.
Proof.
  unfold rangeOrder. intros Ho Hs Hk.
  apply (StronglySorted_unique String.le);
    [apply sort_Strings_sorted | done |].
  by rewrite sort_Strings_permutation, Ho, Hk.
Qed.

Lemma mandatoryKeys_sorted : StronglySorted String.le mandatoryKeys.
Proof. apply (bool_decide_unpack _). vm_compute. exact I. Qed.

Lemma mandatoryKeys_dom `{Names} (port : Z) :
  mandatoryKeys ≡ₚ elements (dom (mandatory port)).
Proof.
  unfold mandatory. rewrite dom_list_to_map_L. cbn [fmap list_fmap fst].
  rewrite elements_list_to_set.
  - apply (bool_decide_unpack _). vm_compute. exact I.
  - apply (bool_decide_unpack _). vm_compute. exact I.
Qed.

Lemma earlyKeys_dom `{Names} : ["auth_user"] ≡ₚ elements (dom early).
Proof. unfold early. by rewrite dom_singleton_L, elements_singleton. Qed.

Lemma defaultsKeys_dom :
  ["ignore_startup_parameters"] ≡ₚ elements (dom defaults).
Proof. unfold defaults. by rewrite dom_singleton_L, elements_singleton. Qed.

Lemma mandatory_index `{Names} (port : Z) :
  index (mandatory port) "auth_file" = authFileAbsolutePath /\
  index (mandatory port) "auth_query" =
    "SELECT username, password from pgbouncer.get_auth($1)" /\
  index (mandatory port) "auth_user" = postgresqlUser /\
  index (mandatory port) "client_tls_ca_file" =
    certFrontendAuthorityAbsolutePath /\
  index (mandatory port) "client_tls_cert_file" = certFrontendAbsolutePath /\
  index (mandatory port) "client_tls_key_file" =
    certFrontendPrivateKeyAbsolutePath /\
  index (mandatory port) "client_tls_sslmode" = "require" /\
  index (mandatory port) "conffile" = iniFileAbsolutePath /\
  index (mandatory port) "listen_addr" = "*" /\
  index (mandatory port) "listen_port" = fmt_Sprint_int port /\
  index (mandatory port) "server_tls_ca_file" =
    certBackendAuthorityAbsolutePath /\
  index (mandatory port) "server_tls_sslmode" = "verify-full" /\
  index (mandatory port) "unix_socket_dir" = EmptyString.
Proof.
  unfold mandatory. generalize (fmt_Sprint_int port). intros s.
  repeat split; vm_compute; reflexivity.
Qed.

Lemma early_index `{Names} : index early "auth_user" = postgresqlUser.
Proof. unfold index, early. by rewrite lookup_singleton_eq. Qed.

Lemma defaults_index :
  index defaults "ignore_startup_parameters" = "extra_float_digits".
Proof. unfold index, defaults. by rewrite lookup_singleton_eq. Qed.

(** The text that [clusterINI] writes, line by line: the warning, the
    global [auth_user] before the [databases] section, the wildcard
    database on the primary service, the default for the startup
    parameters, and the thirteen mandatory settings in the increasing
    order of their names. *)
Theorem clusterINI_layout `{Names} {Rest}
    (cluster : v1beta1.PostgresCluster Rest) (o : RangeOrders)
    (proxy : v1beta1.PostgresProxySpec) (bouncer : v1beta1.PGBouncerPodSpec)
    (pgBouncerPort postgresPort : Z) :
  validOrders o ->
  v1beta1.Proxy (v1beta1.Spec cluster) = Some proxy ->
  v1beta1.PGBouncer proxy = Some bouncer ->
  v1beta1.PGBouncer_Port bouncer = Some pgBouncerPort ->
  v1beta1.Port (v1beta1.Spec cluster) = Some postgresPort ->
  let nl := str1 newline in
  clusterINI cluster o = Some (
    "# Generated by postgres-operator. DO NOT EDIT." +:+ nl +:+
    "# Your changes will not be saved." +:+ nl +:+
    nl +:+
    "[pgbouncer]" +:+ nl +:+
    "auth_user = " +:+ postgresqlUser +:+ nl +:+
    "[databases]" +:+ nl +:+
    "* = host=" +:+ ClusterPrimaryService_Name (v1beta1.Name cluster) +:+
      " port=" +:+ fmt_Sprint_int postgresPort +:+ nl +:+
    nl +:+
    "[pgbouncer]" +:+ nl +:+
    "ignore_startup_parameters = extra_float_digits" +:+ nl +:+
    nl +:+
    "[pgbouncer]" +:+ nl +:+
    "auth_file = /etc/pgbouncer/~postgres-operator/users.txt" +:+ nl +:+
    "auth_query = SELECT username, password from pgbouncer.get_auth($1)" +:+ nl +:+
    "auth_user = " +:+ postgresqlUser +:+ nl +:+
    "client_tls_ca_file = " +:+ certFrontendAuthorityAbsolutePath +:+ nl +:+
    "client_tls_cert_file = " +:+ certFrontendAbsolutePath +:+ nl +:+
    "client_tls_key_file = " +:+ certFrontendPrivateKeyAbsolutePath +:+ nl +:+
    "client_tls_sslmode = require" +:+ nl +:+
    "conffile = /etc/pgbouncer/~postgres-operator.ini" +:+ nl +:+
    "listen_addr = *" +:+ nl +:+
    "listen_port = " +:+ fmt_Sprint_int pgBouncerPort +:+ nl +:+
    "server_tls_ca_file = " +:+ certBackendAuthorityAbsolutePath +:+ nl +:+
    "server_tls_sslmode = verify-full" +:+ nl +:+
    "unix_socket_dir = " +:+ nl).
Proof.
  intros (He & Hd & Hm) Hproxy Hbouncer Hport Hpg nl. unfold clusterINI.
  rewrite Hproxy. cbn [mbind option_bind]. rewrite Hbouncer.
  cbn [mbind option_bind]. rewrite Hport. cbn [mbind option_bind].
  rewrite Hpg. cbn [mbind option_bind]. f_equal.
  rewrite !iniValueSet_String_lines.
  rewrite (sort_Strings_keys early _ ["auth_user"] He
             ltac:(repeat constructor) earlyKeys_dom).
  rewrite (sort_Strings_keys defaults _ ["ignore_startup_parameters"] Hd
             ltac:(repeat constructor) defaultsKeys_dom).
  rewrite (sort_Strings_keys (mandatory pgBouncerPort) _ mandatoryKeys
             (Hm pgBouncerPort) mandatoryKeys_sorted
             (mandatoryKeys_dom pgBouncerPort)).
  destruct (mandatory_index pgBouncerPort)
    as (H1 & H2 & H3 & H4 & H5 & H6 & H7 & H8 & H9 & H10 & H11 & H12 & H13).
  unfold iniLines, iniLine, mandatoryKeys. cbn [foldr].
  rewrite H1, H2, H3, H4, H5, H6, H7, H8, H9, H10, H11, H12, H13.
  rewrite early_index, defaults_index. subst nl.
  unfold iniGeneratedWarning, authFileAbsolutePath, iniFileAbsolutePath,
    configDirectory, authFileProjectionPath, iniFileProjectionPath.
  rewrite !append_assoc. reflexivity.
Qed.

(** The two files are projected where the configuration file says they
    are.  [podConfigFiles] faults exactly when one of its two objects is
    nil; otherwise it projects one key of the config map and one key of
    the secret, at two different paths, and below [configDirectory] these
    paths are the values of the settings [conffile] and [auth_file] that
    [clusterINI] writes. *)
Theorem podConfigFiles_paths `{Names}
    (clusterConfigMap : option corev1.ConfigMap)
    (clusterSecret : option corev1.Secret) (pgBouncerPort : Z) :
  match podConfigFiles clusterConfigMap clusterSecret with
  | None => clusterConfigMap = None \/ clusterSecret = None
  | Some projections =>
      is_Some clusterConfigMap /\ is_Some clusterSecret /\
      corev1.VolumeProjection_ConfigMap <$> projections =
        [Some {| corev1.ConfigMapProjection_Name :=
                   default EmptyString (corev1.ConfigMap_Name <$> clusterConfigMap);
                 corev1.ConfigMapProjection_Items :=
                   [{| corev1.Key := "pgbouncer.ini";
                       corev1.Path := iniFileProjectionPath |}] |}; None] /\
      corev1.VolumeProjection_Secret <$> projections =
        [None;
         Some {| corev1.SecretProjection_Name :=
                   default EmptyString (corev1.Secret_Name <$> clusterSecret);
                 corev1.SecretProjection_Items :=
                   [{| corev1.Key := "pgbouncer-users.txt";
                       corev1.Path := authFileProjectionPath |}] |}] /\
      NoDup (projections ≫= corev1.paths) /\
      (fun path => configDirectory +:+ "/" +:+ path) <$>
        (projections ≫= corev1.paths) =
        [index (mandatory pgBouncerPort) "conffile";
         index (mandatory pgBouncerPort) "auth_file"]
  end.
Proof.
  destruct clusterConfigMap as [configMap|], clusterSecret as [secret|];
    cbn [podConfigFiles mbind option_bind]; [|by right|by left|by left].
  split_and!; [by eexists | by eexists | reflexivity | reflexivity | |].
  - apply (bool_decide_unpack _). vm_compute. exact I.
  - unfold mandatory. generalize (fmt_Sprint_int pgBouncerPort). intros s.
    vm_compute. reflexivity.
Qed.

End Strings.

(** ** The reconciler *)

Section Stages.
Import v1beta1 postgrescluster.
Context `{Platform} `{pgbouncer.Names}.
Implicit Types (l : Locals) (r : Reconciler) (t : list Entry).

(** *** The assignments of the source keep what they should *)

Lemma keeps_discard : keeps discard.
Proof. by intros a l. Qed.

Lemma keeps_set_outs {A} (f : A -> Outputs -> Outputs) :
  keeps (fun a => set_outs (f a)).
Proof. by intros a l. Qed.

Lemma keeps_set_instanceSet : keeps set_instanceSet.
Proof. by intros a l. Qed.

Lemma keeps_collect (sts : StatefulSetList) :
  keeps (fun v l =>
    set_instancesNames (collectNames (instancesNames l) sts) (set_instanceSet v l)).
Proof. by intros a l. Qed.

Lemma keeps_id {A} : keeps (fun (_ : A) l => l).
Proof. by intros a l. Qed.

Create HintDb keeps.
#[local] Hint Resolve keeps_discard keeps_set_instanceSet keeps_collect keeps_id : keeps.
#[local] Hint Extern 1 (keeps _) => apply @keeps_set_outs : keeps.

(** *** One stage *)

Lemma stage_preserved {A} Q P (name : Locals -> Ret A -> Stage) run store l :
  preserved Q P -> keeps store -> (forall l ret, Q (name l ret)) ->
  P l -> P (stage name run store l).
Proof.
  intros HP Hk HQ Hl. unfold stage. destruct (err l) eqn:He; [done|].
  by apply HP.
Qed.

Lemma stagesBefore_preserved Q P r pgHBAs pgParameters l :
  preserved Q P -> Forall Q (beforeInstanceSets pgHBAs) -> P l ->
  P (stagesBeforeInstanceSets r pgHBAs pgParameters l).
Proof.
  intros HP HQ Hl. unfold stagesBeforeInstanceSets.
  repeat (apply Forall_cons_1 in HQ as [? HQ]).
  repeat (apply (stage_preserved Q P); [done | eauto with keeps | done |]).
  done.
Qed.

Lemma loop_preserved Q P r sets l :
  preserved Q P -> (forall spec, Q (InstanceSet spec)) -> P l ->
  holds P (instanceSetsLoop r sets l).
Proof.
  intros HP HQ. revert l. induction sets as [|spec sets IH]; intros l Hl; [done|].
  cbn [instanceSetsLoop]. destruct (err l) eqn:He; [|].
  - by apply IH.
  - cbn zeta. 
    set (ret := reconcileInstanceSet r _ _ _ _ _ _ _ _).
    change (instanceSet (set_instanceSet (value ret) (called (InstanceSet spec) ret l)))
      with (value ret).
    destruct (value ret) as [sts|] eqn:Hv.
    + apply IH. rewrite <- Hv.
      apply (HP _ (InstanceSet spec) ret (fun v l =>
        set_instancesNames (collectNames (instancesNames l) sts) (set_instanceSet v l)) l);
        eauto with keeps.
    + cbn [holds]. rewrite <- Hv. apply (HP _ _ ret set_instanceSet l); eauto with keeps.
Qed.

Lemma stagesAfter_preserved Q P r l :
  preserved Q P -> resultBlind P ->
  (forall names next, Q (PGBackRest names next)) -> Q PGBouncer -> P l ->
  P (stagesAfterInstanceSets r l).
Proof.
  intros HP HB HQ1 HQ2 Hl. unfold stagesAfterInstanceSets.
  apply (stage_preserved Q P); [done | eauto with keeps | done |].
  unfold stage. destruct (err l) eqn:He; [done|]. cbn zeta.
  set (ret := reconcilePGBackRest r _ _ _).
  unfold updateResult. destruct (err (called _ ret l)).
  - apply (HP _ _ ret (fun _ l => l) l); eauto with keeps.
  - apply HB. apply (HP _ _ ret (fun _ l => l) l); eauto with keeps.
Qed.

Lemma pipeline_preserved Q P r l :
  preserved Q P -> resultBlind P ->
  Forall Q (beforeInstanceSets (build_pgHBAs (cluster l))) ->
  (forall spec, Q (InstanceSet spec)) ->
  (forall names next, Q (PGBackRest names next)) -> Q PGBouncer ->
  P l -> holds P (pipeline r l).
Proof.
  intros HP HB HQ1 HQ2 HQ3 HQ4 Hl. unfold pipeline.
  set (l1 := stagesBeforeInstanceSets r _ _ l).
  assert (P l1) as Hl1 by by apply (stagesBefore_preserved Q P).
  pose proof (loop_preserved Q P r (InstanceSets (Spec (cluster l1))) l1 HP
                HQ2 Hl1) as Hloop.
  destruct (instanceSetsLoop r _ l1) as [l2|l2]; [|done].
  by apply (stagesAfter_preserved Q P).
Qed.

Lemma pipeline_preserved_any P r l :
  preserved anyStage P -> resultBlind P -> P l -> holds P (pipeline r l).
Proof.
  intros HP HB Hl. apply (pipeline_preserved anyStage P); try done.
  by apply Forall_forall.
Qed.

(** *** The record of calls *)

Lemma allOk_onlyLastFails t : allOk t -> onlyLastFails t.
Proof.
  intros Hok pre x post -> Hx. unfold allOk in Hok.
  rewrite Forall_app, Forall_cons in Hok. destruct Hok as (_ & Hx' & _).
  congruence.
Qed.

Lemma allOk_snoc_onlyLastFails t e : allOk t -> onlyLastFails (t ++ [e]).
Proof.
  intros Hok pre x post Heq Hx.
  destruct post as [|y post _] using rev_ind; [done|].
  rewrite app_comm_cons, app_assoc in Heq.
  apply app_inj_tail in Heq as [-> _]. unfold allOk in Hok.
  rewrite Forall_app, Forall_cons in Hok. destruct Hok as (_ & Hx' & _).
  congruence.
Qed.

Lemma allOk_snoc t e : allOk t -> failed e = false -> allOk (t ++ [e]).
Proof. intros. apply Forall_app. split; [done|]. by apply Forall_singleton. Qed.

Lemma entry_failed {A} (c : Call) (ret : Ret A) :
  failed (entry c ret) = false <-> err_of ret = None.
Proof.
  unfold entry. cbn [failed]. destruct (err_of ret); cbn; split; try done.
Qed.

Lemma endsInFailure_onlyLastFails t : endsInFailure t -> onlyLastFails t.
Proof. intros (pre & x & -> & Hok & _). by apply allOk_snoc_onlyLastFails. Qed.

Lemma failFast_onlyLastFails l : failFast l -> onlyLastFails (trace l).
Proof.
  unfold failFast. destruct (err l).
  - apply endsInFailure_onlyLastFails.
  - apply allOk_onlyLastFails.
Qed.

Lemma failFast_preserved : preserved anyStage failFast.
Proof.
  intros A s ret store l Hk _ He Hok. unfold failFast in *. rewrite He in Hok.
  destruct (Hk (value ret) (called s ret l)) as (_ & _ & -> & _ & ->).
  cbn [trace err called]. destruct (err_of ret) eqn:Hr.
  - exists (trace l), (entry (StageCall s) ret). split_and!; [done..|].
    unfold entry. cbn [failed]. by rewrite Hr.
  - apply allOk_snoc; [done|]. by apply entry_failed.
Qed.

Lemma failFast_resultBlind : resultBlind failFast.
Proof. by intros v l. Qed.

Lemma noPatchYet_preserved : preserved anyStage noPatchYet.
Proof.
  intros A s ret store l Hk _ He Hl. unfold noPatchYet.
  destruct (Hk (value ret) (called s ret l)) as (_ & _ & -> & _).
  cbn [trace called]. apply Forall_app. split; [done|].
  apply Forall_singleton. unfold isStatusPatch. cbn. tauto.
Qed.

Lemma noPatchYet_resultBlind : resultBlind noPatchYet.
Proof. by intros v l. Qed.



Lemma sameObject_preserved c : preserved anyStage (sameObject c).
Proof.
  intros A s ret store l Hk _ He Hl. unfold sameObject.
  destruct (Hk (value ret) (called s ret l)) as (-> & _).
  exact Hl.
Qed.


Lemma resultUntouched_preserved : preserved notPGBackRest resultUntouched.
Proof.
  intros A s ret store l Hk Hs He [Hr Ht]. unfold resultUntouched.
  destruct (Hk (value ret) (called s ret l)) as (_ & _ & -> & -> & _).
  cbn [trace result called]. split; [done|].
  rewrite omap_app, Ht. cbn. unfold backrestNext. cbn [call entry].
  by destruct s.
Qed.

(** *** The four ways through [Reconcile] *)

Lemma Reconcile_not_fetched r ctx request w e :
  Client_Get r w request = inr e ->
  Reconcile r ctx request w =
    {| outcome := Returned Result_zero (client_IgnoreNotFound e);
       memory := None; api := w;
       calls := [{| call := GetCall; failed := true |}]; recorded := [] |}.
Proof. intros Hget. unfold Reconcile. by rewrite Hget. Qed.

Lemma Reconcile_delete_error r ctx request w c e :
  Client_Get r w request = inl c -> err_of (handled r c w) = Some e ->
  Reconcile r ctx request w =
    {| outcome := Returned Result_zero (Some e);
       memory := Some (current r c w); api := world_of (handled r c w);
       calls := [{| call := GetCall; failed := false |};
                 {| call := HandleDeleteCall; failed := true |}];
       recorded := [] |}.
Proof.
  intros Hget He. unfold Reconcile. rewrite Hget. cbn zeta.
  fold (handled r c w). unfold entry. rewrite He. reflexivity.
Qed.

Lemma Reconcile_deleted r ctx request w c res :
  Client_Get r w request = inl c -> err_of (handled r c w) = None ->
  value (handled r c w) = Some res ->
  Reconcile r ctx request w =
    {| outcome := Returned (logDeleting ctx res) None;
       memory := Some (current r c w); api := world_of (handled r c w);
       calls := fetched; recorded := [] |}.
Proof.
  intros Hget He Hv. unfold Reconcile. rewrite Hget. cbn zeta.
  fold (handled r c w). unfold entry. rewrite He, Hv. reflexivity.
Qed.

Lemma Reconcile_reserved_name r ctx request w c :
  Client_Get r w request = inl c -> err_of (handled r c w) = None ->
  value (handled r c w) = None -> Name c = "postgres" ->
  Reconcile r ctx request w =
    {| outcome := Returned Result_zero None;
       memory := Some (current r c w); api := world_of (handled r c w);
       calls := fetched; recorded := [invalidName (current r c w)] |}.
Proof.
  intros Hget He Hv Hn. unfold Reconcile. rewrite Hget. cbn zeta.
  fold (handled r c w). unfold entry. rewrite He, Hv.
  cbn [Name withStatus Cluster_Default]. rewrite Hn.
  rewrite bool_decide_eq_true_2 by done. reflexivity.
Qed.

Lemma Reconcile_pipeline r ctx request w c :
  Client_Get r w request = inl c -> err_of (handled r c w) = None ->
  value (handled r c w) = None -> Name c <> "postgres" ->
  Reconcile r ctx request w =
    reconcileCluster r (Cluster_Default c) (current r c w)
      (world_of (handled r c w)) fetched.
Proof.
  intros Hget He Hv Hn. unfold Reconcile. rewrite Hget. cbn zeta.
  fold (handled r c w). unfold entry. rewrite He, Hv.
  cbn [Name withStatus Cluster_Default].
  rewrite bool_decide_eq_false_2 by done. reflexivity.
Qed.

(** The ways through [Reconcile], to be told apart in a proof. *)
Lemma Reconcile_cases r (request : string * string) w :
  (exists e, Client_Get r w request = inr e) \/
  exists c, Client_Get r w request = inl c /\
    ((exists e, err_of (handled r c w) = Some e) \/
     (err_of (handled r c w) = None /\
      ((exists res, value (handled r c w) = Some res) \/
       (value (handled r c w) = None /\
        (Name c = "postgres" \/ Name c <> "postgres"))))).
Proof.
  destruct (Client_Get r w request) as [c|e]; [right | left; by eexists].
  exists c. split; [done|].
  destruct (err_of (handled r c w)) as [e|]; [left; by eexists | right].
  split; [done|].
  destruct (value (handled r c w)) as [res|]; [left; by eexists | right].
  split; [done|]. destruct (decide (Name c = "postgres")); [by left | by right].
Qed.

(** *** The end of an attempt *)

Lemma failFast_fetched (c : Cluster) (w : World) : failFast (locals0 c w fetched).
Proof. unfold failFast, allOk. cbn. by repeat constructor. Qed.

Lemma finish_calls r before l :
  failFast l ->
  calls (finish r before l) = trace l \/
  (err l = None /\ exists x, calls (finish r before l) = trace l ++ [x] /\
     call x = StatusPatchCall).
Proof.
  intros Hl. unfold finish. destruct (err l); [by left|].
  destruct (negb _); [right | by left].
  split; [done|]. by eexists.
Qed.

Lemma reconcileCluster_onlyLastFails r before c w :
  onlyLastFails (calls (reconcileCluster r before c w fetched)).
Proof.
  unfold reconcileCluster.
  pose proof (pipeline_preserved_any failFast r (locals0 c w fetched)
    failFast_preserved failFast_resultBlind (failFast_fetched c w)) as Hp.
  destruct (pipeline r _) as [l|l]; cbn [holds] in Hp.
  - destruct (finish_calls r before l Hp) as [-> | (He & x & -> & _)].
    + by apply failFast_onlyLastFails.
    + apply allOk_snoc_onlyLastFails. unfold failFast in Hp. by rewrite He in Hp.
  - cbn [calls]. by apply failFast_onlyLastFails.
Qed.

(** C6: the pipeline fails fast.  In the record of the calls of any
    attempt, a call that returned an error is the last call: once a stage
    has returned an error, no later stage (and no status patch) is
    called. *)
Theorem fail_fast r ctx request w :
  onlyLastFails (calls (Reconcile r ctx request w)).
Proof.
  destruct (Reconcile_cases r request w)
    as [[e Hget] | (c & Hget & [[e He] | (He & [[res Hv] | (Hv & [Hn | Hn])])])].
  - rewrite (Reconcile_not_fetched r ctx request w e Hget). cbn [calls].
    apply (allOk_snoc_onlyLastFails []). constructor.
  - rewrite (Reconcile_delete_error r ctx request w c e Hget He). cbn [calls].
    apply (allOk_snoc_onlyLastFails [_]). by apply Forall_singleton.
  - rewrite (Reconcile_deleted r ctx request w c res Hget He Hv). cbn [calls].
    apply allOk_onlyLastFails. by repeat constructor.
  - rewrite (Reconcile_reserved_name r ctx request w c Hget He Hv Hn).
    cbn [calls]. apply allOk_onlyLastFails. by repeat constructor.
  - rewrite (Reconcile_pipeline r ctx request w c Hget He Hv Hn).
    apply reconcileCluster_onlyLastFails.
Qed.

(** C3: a cluster named "postgres" that is not marked for deletion, for
    which [handleDelete] does nothing and returns [nil, nil], gets a
    warning event and nothing else: no stage is called, the status is
    not patched, the API is left as it was, and the attempt returns the
    zero result and no error. *)
Theorem reserved_name_rejected r ctx request w c :
  Client_Get r w request = inl c -> Name c = "postgres" ->
  DeletionTimestamp c = None ->
  err_of (handled r c w) = None -> value (handled r c w) = None ->
  world_of (handled r c w) = w ->
  let a := Reconcile r ctx request w in
  recorded a = [invalidName (current r c w)] /\
  eventtype (invalidName (current r c w)) = "Warning" /\
  regarding (invalidName (current r c w)) = (Namespace c, "postgres") /\
  noStageRan a /\ ~ statusPatched a /\ api a = w /\
  outcome a = Returned Result_zero None.
Proof.
  intros Hget Hn Hts He Hv Hw a. subst a.
  rewrite (Reconcile_reserved_name r ctx request w c Hget He Hv Hn).
  cbn [recorded api outcome]. split_and!; try done.
  - cbn. by rewrite Hn.
  - unfold noStageRan, fetched. cbn [calls].
    rewrite !Forall_cons, Forall_nil. cbn. tauto.
  - unfold statusPatched, fetched. cbn [calls].
    rewrite !Exists_cons, Exists_nil. cbn. tauto.
Qed.

Lemma logDeleting_signal ctx res : signal (logDeleting ctx res) = signal res.
Proof.
  unfold logDeleting. destruct (LogV1Enabled ctx); [|done].
  destruct (0 <? RequeueAfter res) eqn:Hd; [|done].
  unfold signal. cbn [RequeueAfter]. by rewrite Hd.
Qed.

Lemma logDeleting_unchanged ctx res :
  LogV1Enabled ctx = false \/ RequeueAfter res <= 0 \/ Requeue res = true ->
  logDeleting ctx res = res.
Proof.
  unfold logDeleting. intros [-> | [Hd | Hr]]; [done | |].
  - destruct (LogV1Enabled ctx); [|done].
    by rewrite (proj2 (Z.ltb_ge 0 (RequeueAfter res)) Hd).
  - destruct (LogV1Enabled ctx), (0 <? RequeueAfter res); try done.
    destruct res. cbn in *. by subst.
Qed.

(** C5, as the code has it: for a cluster marked for deletion, for
    which [handleDelete] returns an error or a result, no stage is called
    and the status is not patched; an error of the handler is returned
    with the zero result; otherwise the handler's result is returned, with
    [Requeue] set in it when the logger writes at verbosity 1 and
    [RequeueAfter] is positive, which is the same signal to the work
    queue. *)
Theorem deletion_bypasses_pipeline r ctx request w c ts :
  Client_Get r w request = inl c -> DeletionTimestamp c = Some ts ->
  is_Some (err_of (handled r c w)) \/ is_Some (value (handled r c w)) ->
  let del := handled r c w in
  let a := Reconcile r ctx request w in
  noStageRan a /\ ~ statusPatched a /\ api a = world_of del /\
  match err_of del, value del with
  | Some e, _ => outcome a = Returned Result_zero (Some e)
  | None, Some res =>
      outcome a = Returned (logDeleting ctx res) None /\
      signal (logDeleting ctx res) = signal res /\
      RequeueAfter (logDeleting ctx res) = RequeueAfter res /\
      (LogV1Enabled ctx = false \/ RequeueAfter res <= 0 \/ Requeue res = true ->
       logDeleting ctx res = res)
  | None, None => False
  end.
Proof.
  intros Hget Hts Hout del a. subst a del.
  destruct (err_of (handled r c w)) as [e|] eqn:He.
  - rewrite (Reconcile_delete_error r ctx request w c e Hget He).
    cbn [calls api outcome]. split_and!; [| |done..].
    + unfold noStageRan. cbn [calls].
      rewrite !Forall_cons, Forall_nil. cbn. tauto.
    + unfold statusPatched. cbn [calls].
      rewrite !Exists_cons, Exists_nil. cbn. tauto.
  - destruct (value (handled r c w)) as [res|] eqn:Hv.
    + rewrite (Reconcile_deleted r ctx request w c res Hget He Hv).
      cbn [calls api outcome]. split_and!; [| |done..| | |].
      * unfold noStageRan, fetched. cbn [calls].
        rewrite !Forall_cons, Forall_nil. cbn. tauto.
      * unfold statusPatched, fetched. cbn [calls].
        rewrite !Exists_cons, Exists_nil. cbn. tauto.
      * apply logDeleting_signal.
      * unfold logDeleting.
        by destruct (LogV1Enabled ctx), (0 <? RequeueAfter res).
      * apply logDeleting_unchanged.
    + destruct Hout as [[? [=]] | [? [=]]].
Qed.

(** *** The status patch *)

Lemma noPatchYet_fetched (c : Cluster) (w : World) :
  noPatchYet (locals0 c w fetched).
Proof.
  unfold noPatchYet, fetched. cbn [trace locals0].
  rewrite !Forall_cons, Forall_nil. cbn. tauto.
Qed.


(** *** The result that comes with an error *)

Lemma resultUntouched_fetched (c : Cluster) (w : World) :
  resultUntouched (locals0 c w fetched).
Proof. by split. Qed.






(** *** The rules handed to the configuration stages *)





(** *** The loop over the instance sets *)

Lemma instanceSetsLoop_app r sets1 sets2 l :
  instanceSetsLoop r (sets1 ++ sets2) l =
  match instanceSetsLoop r sets1 l with
  | Running l' => instanceSetsLoop r sets2 l'
  | Panicked l' => Panicked l'
  end.
Proof.
  revert l. induction sets1 as [|spec sets1 IH]; intros l; [done|].
  cbn [app instanceSetsLoop]. destruct (err l); [apply IH|].
  cbn zeta. destruct (instanceSet _); [apply IH | done].
Qed.

Lemma sameObject_fetched (c : Cluster) (w : World) :
  sameObject c (locals0 c w fetched).
Proof. by unfold sameObject. Qed.

Lemma atInstanceSets_sameObject r c w : sameObject c (atInstanceSets r c w).
Proof.
  apply (stagesBefore_preserved anyStage (sameObject c));
    [apply sameObject_preserved | by apply Forall_forall
    | apply sameObject_fetched].
Qed.

Lemma pipeline_atInstanceSets r c w :
  pipeline r (locals0 c w fetched) =
  match instanceSetsLoop r (InstanceSets (Spec (cluster (atInstanceSets r c w))))
          (atInstanceSets r c w) with
  | Running l => Running (stagesAfterInstanceSets r l)
  | Panicked l => Panicked l
  end.
Proof. unfold pipeline, atInstanceSets. cbn [cluster locals0]. reflexivity. Qed.

Lemma instanceSetsLoop_nil r spec sets l :
  err l = None ->
  let ret := reconcileInstanceSet r (cluster l) spec
               (clusterConfigMap (outs l)) (rootCA (outs l))
               (clusterPodService (outs l)) (patroniLeaderService (outs l))
               (primaryCertificate (outs l)) (world l) in
  value ret = None ->
  instanceSetsLoop r (spec :: sets) l =
  Panicked (set_instanceSet None (called (InstanceSet spec) ret l)).
Proof.
  intros He ret Hv. cbn [instanceSetsLoop]. rewrite He. cbn zeta. fold ret.
  change (instanceSet (set_instanceSet (value ret) (called (InstanceSet spec) ret l)))
    with (value ret).
  by rewrite Hv.
Qed.

(** C10: the names of the instances are read off the list that
    [reconcileInstanceSet] returned whatever error came with it; when the
    list is nil, with an error or without, the attempt stops at the
    dereference and returns neither a result nor the error. *)
Theorem nil_instance_list_panics r ctx request w c sets1 spec sets2 l :
  Client_Get r w request = inl c ->
  err_of (handled r c w) = None -> value (handled r c w) = None ->
  Name c <> "postgres" ->
  InstanceSets (Spec (Cluster_Default c)) = sets1 ++ spec :: sets2 ->
  instanceSetsLoop r sets1
    (atInstanceSets r (current r c w) (world_of (handled r c w))) = Running l ->
  err l = None ->
  let ret := reconcileInstanceSet r (cluster l) spec
               (clusterConfigMap (outs l)) (rootCA (outs l))
               (clusterPodService (outs l)) (patroniLeaderService (outs l))
               (primaryCertificate (outs l)) (world l) in
  value ret = None ->
  let a := Reconcile r ctx request w in
  outcome a = Panic /\
  calls a = trace l ++ [entry (StageCall (InstanceSet spec)) ret] /\
  api a = world_of ret.
Proof.
  intros Hget Hde Hdv Hn Hsets Hloop He ret Hv a. subst a.
  rewrite (Reconcile_pipeline r ctx request w c Hget Hde Hdv Hn).
  unfold reconcileCluster. rewrite pipeline_atInstanceSets.
  destruct (atInstanceSets_sameObject r (current r c w)
              (world_of (handled r c w))) as (_ & _ & _ & _ & ->).
  change (Spec (current r c w)) with (Spec (Cluster_Default c)).
  rewrite Hsets, instanceSetsLoop_app, Hloop.
  rewrite (instanceSetsLoop_nil r spec sets2 l He Hv).
  split_and!; reflexivity.
Qed.



Lemma noPatchYet_not_patched t :
  Forall (fun e => ~ isStatusPatch e) t -> ~ Exists isStatusPatch t.
Proof.
  intros Hall Hex. apply Exists_exists in Hex as (x & Hx & Hp).
  rewrite Forall_forall in Hall. by apply (Hall x Hx).
Qed.

(** When a stage has returned an error, the status is not patched: what
    the attempt assigned to the status in memory is not written. *)
Theorem no_status_patch_after_failed_stage r ctx request w x :
  x ∈ calls (Reconcile r ctx request w) -> isStageCall x -> failed x = true ->
  ~ statusPatched (Reconcile r ctx request w).
Proof.
  unfold statusPatched.
  destruct (Reconcile_cases r request w)
    as [[e0 Hget] | (c & Hget & [[e0 He] | (He & [[res0 Hv] | (Hv & [Hn | Hn])])])].
  - rewrite (Reconcile_not_fetched r ctx request w e0 Hget). cbn [calls].
    intros _ _ _. rewrite !Exists_cons, Exists_nil. cbn. tauto.
  - rewrite (Reconcile_delete_error r ctx request w c e0 Hget He). cbn [calls].
    intros _ _ _. rewrite !Exists_cons, Exists_nil. cbn. tauto.
  - rewrite (Reconcile_deleted r ctx request w c res0 Hget He Hv). cbn [calls].
    unfold fetched. intros _ _ _. rewrite !Exists_cons, Exists_nil. cbn. tauto.
  - rewrite (Reconcile_reserved_name r ctx request w c Hget He Hv Hn).
    cbn [calls]. unfold fetched. intros _ _ _.
    rewrite !Exists_cons, Exists_nil. cbn. tauto.
  - rewrite (Reconcile_pipeline r ctx request w c Hget He Hv Hn).
    unfold reconcileCluster.
    pose proof (pipeline_preserved_any failFast r
      (locals0 (current r c w) (world_of (handled r c w)) fetched)
      failFast_preserved failFast_resultBlind (failFast_fetched _ _)) as Hff.
    pose proof (pipeline_preserved_any noPatchYet r
      (locals0 (current r c w) (world_of (handled r c w)) fetched)
      noPatchYet_preserved noPatchYet_resultBlind (noPatchYet_fetched _ _)) as Hno.
    destruct (pipeline r _) as [l|l]; cbn [holds] in Hff, Hno.
    + unfold finish, failFast in *. destruct (err l) eqn:Hel.
      { cbn [calls]. intros _ _ _. by apply noPatchYet_not_patched. }
      destruct (negb _); cbn [calls].
      * intros Hx Hs Hf. exfalso.
        apply elem_of_app in Hx as [Hx | Hx].
        -- unfold allOk in Hff. rewrite Forall_forall in Hff.
           specialize (Hff x Hx). congruence.
        -- apply list_elem_of_singleton in Hx as ->. exact Hs.
      * intros _ _ _. by apply noPatchYet_not_patched.
    + cbn [calls]. intros _ _ _. by apply noPatchYet_not_patched.
Qed.

(** *** The order of the calls *)

Lemma keeps_frames {A} (store : A -> Locals -> Locals) :
  keeps store -> frames store.
Proof. intros Hk a l. by destruct (Hk a l) as (_ & _ & ? & _ & ?). Qed.

Lemma frames_updateResult : frames updateResult.
Proof.
  intros a l. unfold updateResult. destruct (err l) eqn:He; [done|].
  cbn [trace err set_result]. by rewrite He.
Qed.

Lemma advances_refl l : advances [] l l.
Proof.
  exists 0%nat. split_and!; [done | by rewrite app_nil_r | done | done].
Qed.

Lemma advances_app p1 p2 l l1 l2 :
  advances p1 l l1 -> advances p2 l1 l2 -> advances (p1 ++ p2) l l2.
Proof.
  intros (k1 & Hk1 & Ht1 & Hn1 & He1) (k2 & Hk2 & Ht2 & Hn2 & He2).
  destruct (err l1) as [e|] eqn:Hl1.
  - destruct He2 as [-> He2]; [done|]. exists k1.
    rewrite length_app, take_app_le by done.
    split_and!; [lia | | done | ].
    + by rewrite Ht2, Ht1, app_nil_r.
    + intros Hl. by destruct (He1 Hl).
  - specialize (Hn1 eq_refl) as ->. exists (length p1 + k2)%nat.
    rewrite length_app, take_app_add.
    split_and!; [lia | | | ].
    + by rewrite Ht2, Ht1, firstn_all, map_app, app_assoc.
    + intros Hl. by rewrite (Hn2 Hl).
    + intros Hl. by destruct (He1 Hl).
Qed.

Lemma stage_advances {A} (name : Locals -> Ret A -> Stage) run store l :
  frames store -> advances [name l (run l)] l (stage name run store l).
Proof.
  intros Hf. unfold stage. destruct (err l) as [e|] eqn:He.
  - exists 0%nat. rewrite He.
    split_and!; [cbn; lia | by rewrite app_nil_r | done | done].
  - exists 1%nat. cbn zeta.
    destruct (Hf (value (run l)) (called (name l (run l)) (run l) l))
      as [-> ->].
    cbn [trace err called]. split_and!; [done | | done | done].
    by rewrite map_app.
Qed.

Lemma advances_snoc {A} p (name : Locals -> Ret A -> Stage) run store l l1 :
  frames store -> advances p l l1 ->
  advances (p ++ [name l1 (run l1)]) l (stage name run store l1).
Proof.
  intros Hf Hp. apply (advances_app _ _ _ l1); [done|]. by apply stage_advances.
Qed.

Lemma stagesBefore_advances r pgHBAs pgParameters l :
  advances (beforeInstanceSets pgHBAs) l
    (stagesBeforeInstanceSets r pgHBAs pgParameters l).
Proof.
  unfold stagesBeforeInstanceSets, beforeInstanceSets. cbn zeta.
  repeat
    lazymatch goal with
    | |- advances ?full _ (stage ?name ?run ?store ?l1) =>
        let p := eval cbn in (removelast full) in
        refine (advances_snoc p name run store _ l1 _ _);
          [apply keeps_frames; eauto with keeps|]
    end.
  apply advances_refl.
Qed.

Lemma loop_advances r sets l : loopAdvances sets l (instanceSetsLoop r sets l).
Proof.
  revert l. induction sets as [|spec sets IH]; intros l.
  - apply advances_refl.
  - cbn [instanceSetsLoop]. destruct (err l) as [e|] eqn:He.
    + specialize (IH l).
      destruct (instanceSetsLoop r sets l) as [l'|l']; cbn [loopAdvances] in *.
      * destruct IH as (k & Hk & Ht & Hn & Hs).
        destruct Hs as [-> Hs]; [by rewrite He|].
        exists 0%nat. split_and!; [cbn; lia | done | done | done].
      * destruct IH as [Hl _]. congruence.
    + cbn zeta. set (ret := reconcileInstanceSet r _ _ _ _ _ _ _ _).
      change (instanceSet (set_instanceSet (value ret)
                (called (InstanceSet spec) ret l))) with (value ret).
      destruct (value ret) as [sts|] eqn:Hv.
      * set (l2 := set_instancesNames _ _). specialize (IH l2).
        assert (advances [InstanceSet spec] l l2) as H1.
        { exists 1%nat. subst l2. cbn [trace err set_instancesNames
            set_instanceSet called]. rewrite map_app.
          split_and!; [done | done | done | done]. }
        destruct (instanceSetsLoop r sets l2) as [l'|l']; cbn [loopAdvances] in *.
        -- by apply (advances_app [InstanceSet spec] _ l l2 l').
        -- split; [done|]. destruct IH as (He2 & j & spec' & Hj & Ht).
           exists (S j), spec'. split; [done|]. rewrite Ht. subst l2.
           cbn [trace set_instancesNames set_instanceSet called].
           rewrite map_app, <- app_assoc. done.
      * cbn [loopAdvances]. split; [done|]. exists 0%nat, spec.
        split; [done|]. cbn [trace set_instanceSet called]. by rewrite map_app.
Qed.

Lemma stagesAfter_advances r l :
  advances
    [PGBackRest (instancesNames l)
       (value (reconcilePGBackRest r (cluster l) (instancesNames l) (world l)));
     PGBouncer] l (stagesAfterInstanceSets r l).
Proof.
  unfold stagesAfterInstanceSets. cbn zeta.
  lazymatch goal with
  | |- advances [?s1; _] _ (stage ?name ?run ?store ?l1) =>
      refine (advances_snoc [s1] name run store _ l1 _ _);
        [apply keeps_frames; eauto with keeps|]
  end.
  apply (stage_advances
    (fun l (ret : Ret Result) => PGBackRest (instancesNames l) (value ret))).
  apply frames_updateResult.
Qed.

Lemma atInstanceSets_advances r c w :
  advances (beforeInstanceSets (build_pgHBAs c)) (locals0 c w fetched)
    (atInstanceSets r c w).
Proof. unfold atInstanceSets. apply stagesBefore_advances. Qed.

Lemma atInstanceSets_untouched r c w : resultUntouched (atInstanceSets r c w).
Proof.
  apply (stagesBefore_preserved notPGBackRest resultUntouched);
    [apply resultUntouched_preserved | | apply resultUntouched_fetched].
  unfold beforeInstanceSets. rewrite !Forall_cons, Forall_nil. cbn. tauto.
Qed.

Lemma stagesAfter_result r l :
  err (stagesAfterInstanceSets r l) = None ->
  result (stagesAfterInstanceSets r l) =
    updateReconcileResult (result l)
      (value (reconcilePGBackRest r (cluster l) (instancesNames l) (world l))).
Proof.
  unfold stagesAfterInstanceSets, stage. cbn beta zeta.
  set (ret := reconcilePGBackRest r _ _ _). destruct (err l) eqn:He.
  - rewrite He. by rewrite He.
  - unfold updateResult. cbn [err called]. destruct (err_of ret) eqn:Her.
    + cbn [err called]. rewrite Her. cbn [err called]. by rewrite Her.
    + cbn [err called set_result]. rewrite Her. intros _. reflexivity.
Qed.

(** The calls of the pipeline, entered after the cluster was fetched. *)
Lemma pipeline_advances r c w :
  match pipeline r (locals0 c w fetched) with
  | Running l' =>
      exists names next,
        advances (plan c names next) (locals0 c w fetched) l' /\
        (err l' = None -> result l' = updateReconcileResult Result_zero next)
  | Panicked l' =>
      exists j spec, InstanceSets (Spec c) !! j = Some spec /\
        map call (trace l') =
          map call fetched ++
          map StageCall (beforeInstanceSets (build_pgHBAs c) ++
                         map InstanceSet (take j (InstanceSets (Spec c)))) ++
          [StageCall (InstanceSet spec)]
  end.
Proof.
  rewrite pipeline_atInstanceSets.
  destruct (atInstanceSets_sameObject r c w) as (_ & _ & _ & _ & Hspec).
  rewrite Hspec.
  pose proof (atInstanceSets_advances r c w) as H1.
  pose proof (loop_advances r (InstanceSets (Spec c)) (atInstanceSets r c w))
    as H2.
  pose proof (loop_preserved notPGBackRest resultUntouched r
    (InstanceSets (Spec c)) (atInstanceSets r c w) resultUntouched_preserved
    (fun _ => I) (atInstanceSets_untouched r c w)) as H3.
  generalize dependent (atInstanceSets r c w). intros l1 _ H1 H2 H3.
  destruct (instanceSetsLoop r (InstanceSets (Spec c)) l1) as [l2|l2];
    cbn [loopAdvances holds] in H2, H3.
  - eexists _, _. unfold plan. split.
    + apply (advances_app _ _ _ l1); [exact H1|].
      apply (advances_app _ _ _ l2); [exact H2|]. apply stagesAfter_advances.
    + intros He. rewrite (stagesAfter_result r l2 He).
      destruct H3 as [-> _]. reflexivity.
  - destruct H2 as (He & j & spec & Hj & Ht). exists j, spec.
    split; [exact Hj|].
    destruct H1 as (k & _ & Ht1 & Hk & _). rewrite (Hk He), firstn_all in Ht1.
    rewrite Ht, Ht1. cbn [trace locals0]. by rewrite map_app, <- !app_assoc.
Qed.

Lemma plan_current r c w names next :
  plan (current r c w) names next = plan (Cluster_Default c) names next.
Proof. reflexivity. Qed.

Lemma fullRun_split c names next k :
  fullRun c names next =
    (map call fetched ++ map StageCall (take k (plan c names next))) ++
    map StageCall (drop k (plan c names next)) ++ [StatusPatchCall].
Proof.
  unfold fullRun, fetched. cbn [map call app]. do 2 f_equal.
  by rewrite app_assoc, <- map_app, take_drop.
Qed.

Lemma fullRun_whole c names next :
  fullRun c names next =
    (map call fetched ++ map StageCall (plan c names next)) ++ [StatusPatchCall].
Proof. reflexivity. Qed.

(** The calls of an attempt are made in the order of the source.  For a
    cluster that was fetched, the calls are an initial part of: [Get],
    [handleDelete], the ten stages before the instance sets, one call per
    instance set in the order of the spec, the backup stage, the pooler
    stage, the status patch. *)
Theorem calls_follow_source_order r ctx request w c :
  Client_Get r w request = inl c ->
  exists names next,
    map call (calls (Reconcile r ctx request w)) `prefix_of`
      fullRun (Cluster_Default c) names next.
Proof.
  intros Hget.
  destruct (err_of (handled r c w)) as [e|] eqn:He.
  { rewrite (Reconcile_delete_error r ctx request w c e Hget He).
    exists [], Result_zero. cbn [calls map call]. by eexists. }
  destruct (value (handled r c w)) as [res|] eqn:Hv.
  { rewrite (Reconcile_deleted r ctx request w c res Hget He Hv).
    exists [], Result_zero. unfold fetched. cbn [calls map call]. by eexists. }
  destruct (decide (Name c = "postgres")) as [Hn|Hn].
  { rewrite (Reconcile_reserved_name r ctx request w c Hget He Hv Hn).
    exists [], Result_zero. unfold fetched. cbn [calls map call]. by eexists. }
  rewrite (Reconcile_pipeline r ctx request w c Hget He Hv Hn).
  unfold reconcileCluster.
  pose proof (pipeline_advances r (current r c w) (world_of (handled r c w)))
    as Hp.
  destruct (pipeline r _) as [l|l].
  - destruct Hp as (names & next & (k & Hk & Ht & Hn' & _) & _).
    rewrite plan_current in Hk, Ht, Hn'. cbn [trace locals0] in Ht.
    exists names, next. unfold finish. destruct (err l) as [e|] eqn:Hel.
    + cbn [calls]. rewrite Ht, (fullRun_split _ _ _ k). eexists. reflexivity.
    + rewrite (Hn' eq_refl), firstn_all in Ht.
      destruct (negb _); cbn [calls].
      * rewrite map_app, Ht. cbn [map call]. rewrite fullRun_whole.
        exists []. by rewrite app_nil_r.
      * rewrite Ht, fullRun_whole. eexists. reflexivity.
  - destruct Hp as (j & spec & Hj & Ht). cbn [calls]. rewrite Ht.
    change (Spec (current r c w)) with (Spec (Cluster_Default c)) in *.
    change (build_pgHBAs (current r c w))
      with (build_pgHBAs (Cluster_Default c)) in *.
    exists [], Result_zero. unfold fullRun, plan.
    rewrite <- (take_drop_middle _ _ _ Hj) at 2.
    exists (map StageCall (map InstanceSet
              (drop (S j) (InstanceSets (Spec (Cluster_Default c)))) ++
              [PGBackRest [] Result_zero; PGBouncer]) ++ [StatusPatchCall]).
    unfold fetched. cbn [map call app].
    rewrite !map_app, <- !app_assoc. reflexivity.
Qed.

Lemma failFast_pipeline r c w :
  holds failFast (pipeline r (locals0 c w fetched)).
Proof.
  apply pipeline_preserved_any;
    [apply failFast_preserved | apply failFast_resultBlind
    | apply failFast_fetched].
Qed.

Lemma noPatchYet_pipeline r c w :
  holds noPatchYet (pipeline r (locals0 c w fetched)).
Proof.
  apply pipeline_preserved_any;
    [apply noPatchYet_preserved | apply noPatchYet_resultBlind
    | apply noPatchYet_fetched].
Qed.


Lemma failFast_allOk_init l t x :
  failFast l -> trace l = t ++ [x] -> allOk t.
Proof.
  unfold failFast. intros Hff Ht. destruct (err l).
  - destruct Hff as (pre & y & Hpre & Hok & _). rewrite Ht in Hpre.
    by apply app_inj_tail in Hpre as [-> _].
  - rewrite Ht in Hff. unfold allOk in *. rewrite Forall_app in Hff. tauto.
Qed.

(** An attempt that ran the pipeline and returned no error has called
    every stage, in the order of the source, none of which failed; the
    status patch, when the status had changed, came last and succeeded;
    and the result is the zero result with the outcome of the backup
    stage merged into it. *)
Theorem success_runs_every_stage r ctx request w c res :
  Client_Get r w request = inl c ->
  err_of (handled r c w) = None -> value (handled r c w) = None ->
  Name c <> "postgres" ->
  outcome (Reconcile r ctx request w) = Returned res None ->
  exists names next,
    (map call (calls (Reconcile r ctx request w)) =
       fullRun (Cluster_Default c) names next \/
     map call (calls (Reconcile r ctx request w)) ++ [StatusPatchCall] =
       fullRun (Cluster_Default c) names next) /\
    allOk (calls (Reconcile r ctx request w)) /\
    res = updateReconcileResult Result_zero next.
Proof.
  intros Hget He Hv Hn.
  rewrite (Reconcile_pipeline r ctx request w c Hget He Hv Hn).
  unfold reconcileCluster.
  pose proof (pipeline_advances r (current r c w) (world_of (handled r c w)))
    as Hp.
  pose proof (failFast_pipeline r (current r c w) (world_of (handled r c w)))
    as Hff.
  destruct (pipeline r _) as [l|l]; [|done]. cbn [holds] in Hff.
  destruct Hp as (names & next & (k & Hk & Ht & Hn' & _) & Hres).
  rewrite plan_current in Hk, Ht, Hn'. cbn [trace locals0] in Ht.
  unfold finish, failFast in *. destruct (err l) as [e|] eqn:Hel.
  { cbn [outcome]. by intros [=]. }
  rewrite (Hn' eq_refl), firstn_all in Ht. specialize (Hres eq_refl).
  destruct (negb _); cbn [outcome calls].
  - set (p := Client_Status_Patch r _ _ _).
    destruct (fst p) eqn:Hfst; [by intros [=]|]. intros [= <-].
    exists names, next. split_and!; [left | by apply allOk_snoc | done].
    rewrite map_app, Ht. reflexivity.
  - intros [= <-]. exists names, next. split_and!; [right | done | done].
    rewrite Ht. reflexivity.
Qed.

(** The status is patched only after every stage has been called and
    none has failed: in an attempt that patches the status, the patch is
    the last call, the calls before it are the whole pipeline in the
    order of the source, and none of them returned an error. *)
Theorem status_patch_comes_last r ctx request w :
  statusPatched (Reconcile r ctx request w) ->
  exists c names next t x,
    Client_Get r w request = inl c /\
    calls (Reconcile r ctx request w) = t ++ [x] /\
    call x = StatusPatchCall /\ allOk t /\
    map call (calls (Reconcile r ctx request w)) =
      fullRun (Cluster_Default c) names next.
Proof.
  unfold statusPatched.
  destruct (Reconcile_cases r request w)
    as [[e0 Hget] | (c & Hget & [[e0 He] | (He & [[res0 Hv] | (Hv & [Hn | Hn])])])].
  - rewrite (Reconcile_not_fetched r ctx request w e0 Hget). cbn [calls].
    rewrite !Exists_cons, Exists_nil. cbn. tauto.
  - rewrite (Reconcile_delete_error r ctx request w c e0 Hget He). cbn [calls].
    rewrite !Exists_cons, Exists_nil. cbn. tauto.
  - rewrite (Reconcile_deleted r ctx request w c res0 Hget He Hv). cbn [calls].
    unfold fetched. rewrite !Exists_cons, Exists_nil. cbn. tauto.
  - rewrite (Reconcile_reserved_name r ctx request w c Hget He Hv Hn).
    cbn [calls]. unfold fetched. rewrite !Exists_cons, Exists_nil. cbn. tauto.
  - rewrite (Reconcile_pipeline r ctx request w c Hget He Hv Hn).
    unfold reconcileCluster.
    pose proof (pipeline_advances r (current r c w) (world_of (handled r c w)))
      as Hp.
    pose proof (failFast_pipeline r (current r c w) (world_of (handled r c w)))
      as Hff.
    pose proof (noPatchYet_pipeline r (current r c w)
                  (world_of (handled r c w))) as Hno.
    destruct (pipeline r _) as [l|l]; cbn [holds] in Hff, Hno.
    + destruct Hp as (names & next & (k & Hk & Ht & Hn' & _) & _).
      rewrite plan_current in Hk, Ht, Hn'. cbn [trace locals0] in Ht.
      unfold finish, failFast in *. destruct (err l) as [e|] eqn:Hel.
      { cbn [calls]. intros Hex. by apply noPatchYet_not_patched in Hex. }
      destruct (negb _); cbn [calls].
      * intros _. rewrite (Hn' eq_refl), firstn_all in Ht.
        exists c, names, next, (trace l). eexists.
        split_and!; [done | reflexivity | done | done |].
        rewrite map_app, Ht. reflexivity.
      * intros Hex. by apply noPatchYet_not_patched in Hex.
    + cbn [calls]. intros Hex. by apply noPatchYet_not_patched in Hex.
Qed.

(** No error is dropped but the API's not-found error of [Get]: when a
    call has returned an error, the attempt returns an error, unless the
    call is the fetch and the cluster was not found, which returns the
    zero result and no error; an attempt that stops at a nil list can
    have had a failing call only in the instance-set stage. *)
Theorem failed_call_is_reported r ctx request w x :
  x ∈ calls (Reconcile r ctx request w) -> failed x = true ->
  match outcome (Reconcile r ctx request w) with
  | Returned res (Some e) => True
  | Returned res None =>
      call x = GetCall /\ res = Result_zero /\
      exists e, Client_Get r w request = inr e /\ IsNotFound e = true
  | Panic => exists spec, call x = StageCall (InstanceSet spec)
  end.
Proof.
  destruct (Reconcile_cases r request w)
    as [[e0 Hget] | (c & Hget & [[e0 He] | (He & [[res0 Hv] | (Hv & [Hn | Hn])])])].
  - rewrite (Reconcile_not_fetched r ctx request w e0 Hget).
    cbn [calls outcome]. intros Hx%list_elem_of_singleton _. subst x.
    unfold client_IgnoreNotFound. destruct (IsNotFound e0) eqn:Hnf; [|done].
    split_and!; [done | done |]. by exists e0.
  - by rewrite (Reconcile_delete_error r ctx request w c e0 Hget He).
  - rewrite (Reconcile_deleted r ctx request w c res0 Hget He Hv).
    cbn [calls]. unfold fetched. intros Hx Hf. exfalso.
    apply elem_of_cons in Hx as [-> | Hx]; [done|].
    by apply list_elem_of_singleton in Hx as ->.
  - rewrite (Reconcile_reserved_name r ctx request w c Hget He Hv Hn).
    cbn [calls]. unfold fetched. intros Hx Hf. exfalso.
    apply elem_of_cons in Hx as [-> | Hx]; [done|].
    by apply list_elem_of_singleton in Hx as ->.
  - rewrite (Reconcile_pipeline r ctx request w c Hget He Hv Hn).
    unfold reconcileCluster.
    pose proof (pipeline_advances r (current r c w) (world_of (handled r c w)))
      as Hp.
    pose proof (failFast_pipeline r (current r c w) (world_of (handled r c w)))
      as Hff.
    destruct (pipeline r _) as [l|l]; cbn [holds] in Hff.
    + unfold finish, failFast in *. destruct (err l) as [e|] eqn:Hel; [done|].
      destruct (negb _); cbn [calls outcome].
      * set (p := Client_Status_Patch r _ _ _). intros Hx Hf.
        apply elem_of_app in Hx as [Hx | Hx].
        { unfold allOk in Hff. rewrite Forall_forall in Hff.
          specialize (Hff x Hx). congruence. }
        apply list_elem_of_singleton in Hx as ->. cbn [failed] in Hf.
        apply bool_decide_eq_true_1 in Hf as [e1 ->]. done.
      * intros Hx Hf. unfold allOk in Hff. rewrite Forall_forall in Hff.
        specialize (Hff x Hx). congruence.
    + cbn [calls outcome]. intros Hx Hf.
      destruct Hp as (j & spec & Hj & Ht). exists spec.
      remember (trace l) as tl eqn:Htr.
      destruct tl as [|y t _] using rev_ind.
      { by apply elem_of_nil in Hx. }
      rewrite map_app in Ht. cbn [map] in Ht.
      rewrite !app_assoc in Ht. apply app_inj_tail in Ht as [_ Hy].
      apply elem_of_app in Hx as [Hx | Hx].
      * pose proof (failFast_allOk_init l t y Hff (eq_sym Htr)) as Hok.
        unfold allOk in Hok. rewrite Forall_forall in Hok.
        specialize (Hok x Hx). congruence.
      * by apply list_elem_of_singleton in Hx as ->.
Qed.

(** The nil dereference in the loop over the instance sets is the only
    way an attempt stops without returning: such an attempt stopped right
    after a call of [reconcileInstanceSet] for an instance set of the
    cluster's spec, no call before that one had failed, and the status was
    not patched.  A cluster without instance sets cannot stop this way. *)
Theorem fault_only_in_instance_set_loop r ctx request w :
  outcome (Reconcile r ctx request w) = Panic ->
  exists c t x spec,
    Client_Get r w request = inl c /\
    calls (Reconcile r ctx request w) = t ++ [x] /\
    call x = StageCall (InstanceSet spec) /\
    spec ∈ InstanceSets (Spec (Cluster_Default c)) /\
    allOk t /\ ~ statusPatched (Reconcile r ctx request w) /\
    recorded (Reconcile r ctx request w) = [].
Proof.
  destruct (Reconcile_cases r request w)
    as [[e0 Hget] | (c & Hget & [[e0 He] | (He & [[res0 Hv] | (Hv & [Hn | Hn])])])].
  - by rewrite (Reconcile_not_fetched r ctx request w e0 Hget).
  - by rewrite (Reconcile_delete_error r ctx request w c e0 Hget He).
  - by rewrite (Reconcile_deleted r ctx request w c res0 Hget He Hv).
  - by rewrite (Reconcile_reserved_name r ctx request w c Hget He Hv Hn).
  - rewrite (Reconcile_pipeline r ctx request w c Hget He Hv Hn).
    unfold reconcileCluster, statusPatched.
    pose proof (pipeline_advances r (current r c w) (world_of (handled r c w)))
      as Hp.
    pose proof (failFast_pipeline r (current r c w) (world_of (handled r c w)))
      as Hff.
    pose proof (noPatchYet_pipeline r (current r c w)
                  (world_of (handled r c w))) as Hno.
    destruct (pipeline r _) as [l|l]; cbn [holds] in Hff, Hno.
    { unfold finish. destruct (err l); [done|]. by destruct (negb _). }
    intros _. cbn [calls recorded].
    destruct Hp as (j & spec & Hj & Ht).
    remember (trace l) as tl eqn:Htr.
    destruct tl as [|y t _] using rev_ind.
    { apply (f_equal length) in Ht. rewrite !length_app in Ht. cbn in Ht. lia. }
    rewrite map_app in Ht. cbn [map] in Ht.
    rewrite !app_assoc in Ht. apply app_inj_tail in Ht as [_ Hy].
    exists c, t, y, spec.
    split_and!; [done | done | done | | | | done].
    + by apply list_elem_of_lookup_2 in Hj.
    + exact (failFast_allOk_init l t y Hff (eq_sym Htr)).
    + apply noPatchYet_not_patched. unfold noPatchYet in Hno.
      by rewrite <- Htr in Hno.
Qed.

Lemma reconcileCluster_recorded r before c w t :
  recorded (reconcileCluster r before c w t) = [].
Proof.
  unfold reconcileCluster. destruct (pipeline r _); [|done].
  unfold finish. destruct (err _); [done|]. by destruct (negb _).
Qed.

(** The only event an attempt records is the warning for the reserved
    name: an event is recorded only for a fetched cluster named
    "postgres" that [handleDelete] let pass, it is that one warning, and
    the attempt then calls no stage, does not patch the status, and
    returns the zero result and no error. *)
Theorem event_only_for_reserved_name r ctx request w e :
  e ∈ recorded (Reconcile r ctx request w) ->
  exists c,
    Client_Get r w request = inl c /\ Name c = "postgres" /\
    err_of (handled r c w) = None /\ value (handled r c w) = None /\
    recorded (Reconcile r ctx request w) = [e] /\
    regarding e = (Namespace c, "postgres") /\
    eventtype e = "Warning" /\ reason e = "InvalidName" /\
    message e = str1 dquote +:+ "postgres" +:+ str1 dquote +:+ " is not allowed" /\
    noStageRan (Reconcile r ctx request w) /\
    ~ statusPatched (Reconcile r ctx request w) /\
    outcome (Reconcile r ctx request w) = Returned Result_zero None.
Proof.
  destruct (Reconcile_cases r request w)
    as [[e0 Hget] | (c & Hget & [[e0 He] | (He & [[res0 Hv] | (Hv & [Hn | Hn])])])].
  - rewrite (Reconcile_not_fetched r ctx request w e0 Hget). cbn [recorded].
    by intros ?%elem_of_nil.
  - rewrite (Reconcile_delete_error r ctx request w c e0 Hget He).
    cbn [recorded]. by intros ?%elem_of_nil.
  - rewrite (Reconcile_deleted r ctx request w c res0 Hget He Hv).
    cbn [recorded]. by intros ?%elem_of_nil.
  - rewrite (Reconcile_reserved_name r ctx request w c Hget He Hv Hn).
    cbn [recorded calls outcome]. intros ->%list_elem_of_singleton.
    exists c. unfold invalidName.
    cbn [regarding eventtype reason message current Name Namespace withStatus
         Cluster_Default].
    rewrite Hn. split_and!; try done.
    + unfold noStageRan, fetched. cbn [calls].
      rewrite !Forall_cons, Forall_nil. cbn. tauto.
    + unfold statusPatched, fetched. cbn [calls].
      rewrite !Exists_cons, Exists_nil. cbn. tauto.
  - rewrite (Reconcile_pipeline r ctx request w c Hget He Hv Hn).
    rewrite reconcileCluster_recorded. by intros ?%elem_of_nil.
Qed.


(** *** The names handed to the backup stage *)









(** *** The status that is written *)



Lemma withStatus_same (c : Cluster) : withStatus c (Status c) = c.
Proof. by destruct c. Qed.

Lemma observe_same (c : Cluster) :
  ObservedGeneration (Status c) = Generation c -> observe c = c.
Proof.
  destruct c as [ns name g ts spec [og rest]]. cbn. intros ->. reflexivity.
Qed.

Lemma stage_cluster {A} (name : Locals -> Ret A -> Stage) run store l :
  (forall a l, cluster (store a l) = cluster l) -> statusKeeping run ->
  cluster (stage name run store l) = cluster l.
Proof.
  intros Hs Hrun. unfold stage. destruct (err l); [done|]. cbn zeta.
  rewrite Hs. cbn [cluster called]. rewrite Hrun. apply withStatus_same.
Qed.

Lemma stagesBefore_cluster r pgHBAs pgParameters l :
  leavesStatus r ->
  cluster (stagesBeforeInstanceSets r pgHBAs pgParameters l) = cluster l.
Proof.
  intros (H1 & H2 & H3 & H4 & H5 & H6 & H7 & H8 & H9 & H10 & _).
  unfold stagesBeforeInstanceSets. cbn zeta.
  repeat (rewrite stage_cluster; [|by intros|intros ?; auto]). done.
Qed.

Lemma loop_cluster r sets l :
  leavesStatus r ->
  holds (fun l' => cluster l' = cluster l) (instanceSetsLoop r sets l).
Proof.
  intros Hr. pose proof Hr as (_ & _ & _ & _ & _ & _ & _ & _ & _ & _ & H11 & _).
  revert l. induction sets as [|spec sets IH]; intros l; [done|].
  cbn [instanceSetsLoop]. destruct (err l); [apply IH|]. cbn zeta.
  set (ret := reconcileInstanceSet r _ _ _ _ _ _ _ _).
  change (instanceSet (set_instanceSet (value ret)
            (called (InstanceSet spec) ret l))) with (value ret).
  assert (withStatus (cluster l) (status_of ret) = cluster l) as Hc.
  { subst ret. rewrite H11. apply withStatus_same. }
  destruct (value ret) as [sts|].
  - set (l2 := set_instancesNames _ _). specialize (IH l2).
    assert (cluster l2 = cluster l) as <- by exact Hc. exact IH.
  - exact Hc.
Qed.

Lemma stagesAfter_cluster r l :
  leavesStatus r -> cluster (stagesAfterInstanceSets r l) = cluster l.
Proof.
  intros (_ & _ & _ & _ & _ & _ & _ & _ & _ & _ & _ & H12 & H13).
  unfold stagesAfterInstanceSets. cbn zeta.
  rewrite stage_cluster; [|by intros|intros ?; auto].
  rewrite stage_cluster; [done| |intros ?; auto].
  intros a l'. unfold updateResult. by destruct (err l').
Qed.

Lemma pipeline_cluster r l :
  leavesStatus r -> holds (fun l' => cluster l' = cluster l) (pipeline r l).
Proof.
  intros Hr. unfold pipeline.
  set (l1 := stagesBeforeInstanceSets r _ _ l).
  assert (cluster l1 = cluster l) as H1 by by apply stagesBefore_cluster.
  pose proof (loop_cluster r (InstanceSets (Spec (cluster l1))) l1 Hr) as H2.
  destruct (instanceSetsLoop r _ l1) as [l2|l2]; cbn [holds] in *.
  - by rewrite stagesAfter_cluster, H2.
  - by rewrite H2.
Qed.

(** An attempt on a cluster that is up to date writes no status: when
    the observed generation of the fetched cluster is its generation and
    neither [handleDelete] nor any stage changes the status, the status is
    not patched, whatever the stages return, and the cluster in memory
    stays the fetched one with the defaults filled in. *)
Theorem steady_state_writes_no_status r ctx request w c :
  Client_Get r w request = inl c -> leavesStatus r ->
  err_of (handled r c w) = None -> value (handled r c w) = None ->
  status_of (handled r c w) = Status c ->
  Name c <> "postgres" ->
  ObservedGeneration (Status c) = Generation c ->
  ~ statusPatched (Reconcile r ctx request w) /\
  memory (Reconcile r ctx request w) = Some (Cluster_Default c).
Proof.
  intros Hget Hr He Hv Hs Hn Hgen.
  rewrite (Reconcile_pipeline r ctx request w c Hget He Hv Hn).
  unfold reconcileCluster, statusPatched.
  assert (current r c w = Cluster_Default c) as Hcur.
  { unfold current. rewrite Hs. apply (withStatus_same (Cluster_Default c)). }
  pose proof (pipeline_cluster r
    (locals0 (current r c w) (world_of (handled r c w)) fetched) Hr) as Hc.
  pose proof (noPatchYet_pipeline r (current r c w)
                (world_of (handled r c w))) as Hno.
  destruct (pipeline r _) as [l|l]; cbn [holds locals0 cluster] in Hc, Hno.
  - rewrite Hcur in Hc. unfold finish. rewrite Hc.
    rewrite (observe_same (Cluster_Default c)) by exact Hgen.
    destruct (err l).
    + cbn [calls memory]. split; [by apply noPatchYet_not_patched|done].
    + unfold DeepEqual. rewrite bool_decide_eq_true_2 by done.
      cbn [negb calls memory]. split; [by apply noPatchYet_not_patched|done].
  - cbn [calls memory]. rewrite Hc, Hcur.
    split; [by apply noPatchYet_not_patched|done].
Qed.

End Stages.

(** ** The properties at the scripted reconcilers *)

Section Examples.
Import v1beta1 postgrescluster demo.


Lemma reserved_name_rejected_witness :
  let c := aCluster "postgres" None in
  let r := reconciler c nothingFails Result_zero oneInstance Result_zero in
  let a := Reconcile r quiet ("ns", "postgres") ["earlier write"] in
  Client_Get r ["earlier write"] ("ns", "postgres") = inl c /\
  world_of (handled r c ["earlier write"]) = ["earlier write"] /\
  recorded a = [invalidName (current r c ["earlier write"])] /\
  api a = ["earlier write"] /\
  outcome a = Returned Result_zero None.
Proof.
  intros c r a.
  assert (Hget : Client_Get r ["earlier write"] ("ns", "postgres") = inl c)
    by (vm_compute; reflexivity).
  assert (Hw : world_of (handled r c ["earlier write"]) = ["earlier write"])
    by reflexivity.
  pose proof (reserved_name_rejected r quiet ("ns", "postgres")
                ["earlier write"] c Hget eq_refl eq_refl eq_refl eq_refl Hw)
    as Hthm.
  split; [exact Hget|]. split; [exact Hw|].
  destruct Hthm as (Hr & _ & _ & _ & _ & Ha & Ho).
  split; [exact Hr|]. split; [exact Ha | exact Ho].
Defined.

(** With verbose logging, the result of the deletion handler comes back
    with [Requeue] set: not the result the handler returned. *)
Lemma deletion_result_requeue_set :
  let c := aCluster "demo" (Some 1) in
  let r := reconciler c nothingFails Result_zero oneInstance
             (after (seconds 5)) in
  let del := handled r c [] in
  DeletionTimestamp c = Some 1 /\
  err_of del = None /\ value del = Some (after (seconds 5)) /\
  outcome (Reconcile r verbose ("ns", "demo") []) =
    Returned {| Requeue := true; RequeueAfter := seconds 5 |} None /\
  {| Requeue := true; RequeueAfter := seconds 5 |} <> after (seconds 5).
Proof. vm_compute. repeat split. discriminate. Qed.

Lemma deletion_bypasses_pipeline_witness :
  let c := aCluster "demo" (Some 1) in
  let r := reconciler c nothingFails Result_zero oneInstance
             (after (seconds 5)) in
  let a := Reconcile r verbose ("ns", "demo") [] in
  Client_Get r [] ("ns", "demo") = inl c /\
  DeletionTimestamp c = Some 1 /\
  value (handled r c []) = Some (after (seconds 5)) /\
  noStageRan a /\ ~ statusPatched a /\ api a = ["deletionCleanup"] /\
  outcome a = Returned (logDeleting verbose (after (seconds 5))) None /\
  signal (logDeleting verbose (after (seconds 5))) = signal (after (seconds 5)).
Proof.
  intros c r a.
  assert (Hget : Client_Get r [] ("ns", "demo") = inl c)
    by (vm_compute; reflexivity).
  assert (Hts : DeletionTimestamp c = Some 1) by reflexivity.
  assert (Hv : value (handled r c []) = Some (after (seconds 5)))
    by reflexivity.
  assert (Hout : is_Some (err_of (handled r c [])) \/
                 is_Some (value (handled r c [])))
    by (right; exists (after (seconds 5)); exact Hv).
  pose proof (deletion_bypasses_pipeline r verbose ("ns", "demo") [] c 1
                Hget Hts Hout) as Hthm.
  split; [exact Hget|]. split; [exact Hts|]. split; [exact Hv|].
  destruct Hthm as (Hs & Hp & Ha & Ho & Hsig & _).
  split; [exact Hs|]. split; [exact Hp|]. split; [exact Ha|].
  split; [exact Ho | exact Hsig].
Defined.





Lemma nil_instance_list_panics_witness :
  let c := aCluster "demo" None in
  let r := reconciler c (failsAt "InstanceSet") Result_zero None Result_zero in
  let a := Reconcile r quiet ("ns", "demo") [] in
  let l := atInstanceSets r (current r c []) (world_of (handled r c [])) in
  InstanceSets (Spec (Cluster_Default c)) = [] ++ instance1 :: [] /\
  err l = None /\
  value (reconcileInstanceSet r (cluster l) instance1
           (clusterConfigMap (outs l)) (rootCA (outs l))
           (clusterPodService (outs l)) (patroniLeaderService (outs l))
           (primaryCertificate (outs l)) (world l)) = None /\
  is_Some (err_of (reconcileInstanceSet r (cluster l) instance1
           (clusterConfigMap (outs l)) (rootCA (outs l))
           (clusterPodService (outs l)) (patroniLeaderService (outs l))
           (primaryCertificate (outs l)) (world l))) /\
  outcome a = Panic.
Proof.
  intros c r a l.
  assert (Hget : Client_Get r [] ("ns", "demo") = inl c)
    by (vm_compute; reflexivity).
  assert (Hde : err_of (handled r c []) = None) by reflexivity.
  assert (Hdv : value (handled r c []) = None) by reflexivity.
  assert (Hn : Name c <> "postgres") by (vm_compute; discriminate).
  assert (Hsets : InstanceSets (Spec (Cluster_Default c)) = [] ++ instance1 :: [])
    by reflexivity.
  assert (Hl : instanceSetsLoop r []
                 (atInstanceSets r (current r c []) (world_of (handled r c [])))
               = Running l) by reflexivity.
  assert (He : err l = None) by (vm_compute; reflexivity).
  assert (Hv : value (reconcileInstanceSet r (cluster l) instance1
           (clusterConfigMap (outs l)) (rootCA (outs l))
           (clusterPodService (outs l)) (patroniLeaderService (outs l))
           (primaryCertificate (outs l)) (world l)) = None)
    by (vm_compute; reflexivity).
  split; [exact Hsets|]. split; [exact He|]. split; [exact Hv|].
  split; [vm_compute; by eexists|].
  exact (proj1 (nil_instance_list_panics r quiet ("ns", "demo") [] c []
                  instance1 [] l Hget Hde Hdv Hn Hsets Hl He Hv)).
Defined.


Lemma no_status_patch_after_failed_stage_witness :
  let c := aCluster "demo" None in
  let r := reconciler c (failsAt "PatroniStatus") Result_zero oneInstance
             Result_zero in
  let a := Reconcile r quiet ("ns", "demo") [] in
  let x := {| call := StageCall PatroniStatus; failed := true |} in
  x ∈ calls a /\ isStageCall x /\ failed x = true /\ ~ statusPatched a.
Proof.
  intros c r a x.
  assert (Hx : x ∈ calls a).
  { apply (list_elem_of_lookup_2 _ 2%nat). vm_compute. reflexivity. }
  split; [exact Hx|]. split; [exact I|]. split; [reflexivity|].
  exact (no_status_patch_after_failed_stage r quiet ("ns", "demo") [] x Hx I
           eq_refl).
Defined.

(** When nothing fails every stage is called once, in the order of the
    source, and the status is patched last. *)
Example all_stages_called :
  let c := aCluster "demo" None in
  let r := reconciler c nothingFails (after (seconds 5)) oneInstance
             Result_zero in
  let a := Reconcile r quiet ("ns", "demo") [] in
  let pgHBAs := build_pgHBAs c in
  map call (calls a) =
    [GetCall; HandleDeleteCall; StageCall PatroniStatus; StageCall PGUserSecret;
     StageCall (ClusterConfigMap pgHBAs); StageCall RootCertificate;
     StageCall ClusterPodService; StageCall PatroniLeaderLease;
     StageCall ClusterPrimaryService; StageCall ClusterCertificate;
     StageCall PatroniDistributedConfiguration;
     StageCall (PatroniDynamicConfiguration pgHBAs);
     StageCall (InstanceSet instance1);
     StageCall (PGBackRest ["demo-instance1"] (after (seconds 5)));
     StageCall PGBouncer; StatusPatchCall] /\
  outcome a = Returned (after (seconds 5)) None /\
  (ObservedGeneration ∘ Status) <$> memory a = Some (Generation c).
Proof. vm_compute. repeat split. Qed.

Lemma configuration_deterministic_witness :
  pgbouncer.validOrders demo.validOrders0 ∧ pgbouncer.validOrders demo.validOrders1 ∧
  pgbouncer.clusterINI (demo.aCluster "demo" None) demo.validOrders0 =
  pgbouncer.clusterINI (demo.aCluster "demo" None) demo.validOrders1.
Proof.
  assert (Hv0 : pgbouncer.validOrders demo.validOrders0).
  { split_and!; [| | intros port]; unfold pgbouncer.rangeOrder; apply (bool_decide_unpack _); vm_compute; exact I. }
  assert (Hv1 : pgbouncer.validOrders demo.validOrders1).
  { split_and!; [| | intros port]; unfold pgbouncer.rangeOrder; apply (bool_decide_unpack _); vm_compute; exact I. }
  split_and!; [exact Hv0 | exact Hv1 |].
  exact (proj1 (configuration_deterministic (demo.aCluster "demo" None)
                  demo.validOrders0 demo.validOrders1 [] [] Hv0 Hv1 eq_refl)).
Defined.

Lemma calls_follow_source_order_witness :
  let c := aCluster "demo" None in
  let r := reconciler c (failsAt "RootCertificate") Result_zero oneInstance
             Result_zero in
  let a := Reconcile r quiet ("ns", "demo") [] in
  Client_Get r [] ("ns", "demo") = inl c /\
  length (calls a) = 6%nat /\
  exists names next,
    map call (calls a) `prefix_of` fullRun (Cluster_Default c) names next.
Proof.
  intros c r a.
  assert (Hget : Client_Get r [] ("ns", "demo") = inl c)
    by (vm_compute; reflexivity).
  split; [exact Hget|]. split; [vm_compute; reflexivity|].
  exact (calls_follow_source_order r quiet ("ns", "demo") [] c Hget).
Defined.

Lemma success_runs_every_stage_witness :
  let c := aCluster "demo" None in
  let r := reconciler c nothingFails (after (seconds 5)) oneInstance
             Result_zero in
  let a := Reconcile r quiet ("ns", "demo") [] in
  outcome a = Returned (after (seconds 5)) None /\
  exists names next,
    (map call (calls a) = fullRun (Cluster_Default c) names next \/
     map call (calls a) ++ [StatusPatchCall] =
       fullRun (Cluster_Default c) names next) /\
    allOk (calls a) /\
    after (seconds 5) = updateReconcileResult Result_zero next.
Proof.
  intros c r a.
  assert (Hget : Client_Get r [] ("ns", "demo") = inl c)
    by (vm_compute; reflexivity).
  assert (Hde : err_of (handled r c []) = None) by reflexivity.
  assert (Hdv : value (handled r c []) = None) by reflexivity.
  assert (Hn : Name c <> "postgres") by (vm_compute; discriminate).
  assert (Ho : outcome a = Returned (after (seconds 5)) None)
    by (vm_compute; reflexivity).
  split; [exact Ho|].
  exact (success_runs_every_stage r quiet ("ns", "demo") [] c
           (after (seconds 5)) Hget Hde Hdv Hn Ho).
Defined.

Lemma status_patch_comes_last_witness :
  let c := aCluster "demo" None in
  let r := reconciler c (failsAt "StatusPatch") Result_zero oneInstance
             Result_zero in
  let a := Reconcile r quiet ("ns", "demo") [] in
  statusPatched a /\
  exists c' names next t x,
    Client_Get r [] ("ns", "demo") = inl c' /\
    calls a = t ++ [x] /\ call x = StatusPatchCall /\ allOk t /\
    map call (calls a) = fullRun (Cluster_Default c') names next.
Proof.
  intros c r a.
  assert (Hp : statusPatched a).
  { apply Exists_exists.
    exists {| call := StatusPatchCall; failed := true |}. split; [|exact I].
    apply (list_elem_of_lookup_2 _ 15%nat). vm_compute. reflexivity. }
  split; [exact Hp|].
  exact (status_patch_comes_last r quiet ("ns", "demo") [] Hp).
Defined.

Lemma failed_call_is_reported_witness :
  let c := aCluster "demo" None in
  let r := reconciler c (failsAt "PGBackRest") Result_zero oneInstance
             Result_zero in
  let a := Reconcile r quiet ("ns", "demo") [] in
  let x := {| call := StageCall (PGBackRest ["demo-instance1"] Result_zero);
              failed := true |} in
  x ∈ calls a /\ failed x = true /\
  outcome a = Returned Result_zero (Some (Failure "PGBackRest")) /\
  match outcome a with
  | Returned res (Some e) => True
  | Returned res None =>
      call x = GetCall /\ res = Result_zero /\
      exists e, Client_Get r [] ("ns", "demo") = inr e /\ IsNotFound e = true
  | Panic => exists spec, call x = StageCall (InstanceSet spec)
  end.
Proof.
  intros c r a x.
  assert (Hx : x ∈ calls a).
  { apply (list_elem_of_lookup_2 _ 13%nat). vm_compute. reflexivity. }
  split; [exact Hx|]. split; [reflexivity|].
  split; [vm_compute; reflexivity|].
  exact (failed_call_is_reported r quiet ("ns", "demo") [] x Hx eq_refl).
Defined.

Lemma fault_only_in_instance_set_loop_witness :
  let c := aCluster "demo" None in
  let r := reconciler c (failsAt "InstanceSet") Result_zero None Result_zero in
  let a := Reconcile r quiet ("ns", "demo") [] in
  outcome a = Panic /\
  exists c' t x spec,
    Client_Get r [] ("ns", "demo") = inl c' /\
    calls a = t ++ [x] /\ call x = StageCall (InstanceSet spec) /\
    spec ∈ InstanceSets (Spec (Cluster_Default c')) /\
    allOk t /\ ~ statusPatched a /\ recorded a = [].
Proof.
  intros c r a.
  assert (Ho : outcome a = Panic) by (vm_compute; reflexivity).
  split; [exact Ho|].
  exact (fault_only_in_instance_set_loop r quiet ("ns", "demo") [] Ho).
Defined.

Lemma event_only_for_reserved_name_witness :
  let c := aCluster "postgres" None in
  let r := reconciler c nothingFails Result_zero oneInstance Result_zero in
  let a := Reconcile r quiet ("ns", "postgres") [] in
  let e := invalidName c in
  e ∈ recorded a /\
  exists c',
    Client_Get r [] ("ns", "postgres") = inl c' /\ Name c' = "postgres" /\
    err_of (handled r c' []) = None /\ value (handled r c' []) = None /\
    recorded a = [e] /\
    regarding e = (Namespace c', "postgres") /\
    eventtype e = "Warning" /\ reason e = "InvalidName" /\
    message e = str1 dquote +:+ "postgres" +:+ str1 dquote +:+ " is not allowed" /\
    noStageRan a /\ ~ statusPatched a /\
    outcome a = Returned Result_zero None.
Proof.
  intros c r a e.
  assert (He : e ∈ recorded a).
  { apply (list_elem_of_lookup_2 _ 0%nat). vm_compute. reflexivity. }
  split; [exact He|].
  exact (event_only_for_reserved_name r quiet ("ns", "postgres") [] e He).
Defined.




Lemma steady_state_writes_no_status_witness :
  let c := withStatus (aCluster "demo" None)
             {| ObservedGeneration := 2; StatusRest := [] |} in
  let r := reconciler c (failsAt "PGBouncer") Result_zero oneInstance
             Result_zero in
  let a := Reconcile r quiet ("ns", "demo") [] in
  leavesStatus r /\ ObservedGeneration (Status c) = Generation c /\
  ~ statusPatched a /\ memory a = Some (Cluster_Default c).
Proof.
  intros c r a.
  assert (Hget : Client_Get r [] ("ns", "demo") = inl c)
    by (vm_compute; reflexivity).
  assert (Hr : leavesStatus r) by (repeat split; intros; reflexivity).
  assert (Hde : err_of (handled r c []) = None) by reflexivity.
  assert (Hdv : value (handled r c []) = None) by reflexivity.
  assert (Hs : status_of (handled r c []) = Status c) by reflexivity.
  assert (Hn : Name c <> "postgres") by (vm_compute; discriminate).
  assert (Hg : ObservedGeneration (Status c) = Generation c) by reflexivity.
  split; [exact Hr|]. split; [exact Hg|].
  exact (steady_state_writes_no_status r quiet ("ns", "demo") [] c
           Hget Hr Hde Hdv Hs Hn Hg).
Defined.

Lemma clusterINI_layout_witness :
  let nl := str1 newline in
  pgbouncer.validOrders validOrders0 /\
  pgbouncer.clusterINI (aCluster "demo" None) validOrders0 = Some (
    "# Generated by postgres-operator. DO NOT EDIT." +:+ nl +:+
    "# Your changes will not be saved." +:+ nl +:+
    nl +:+
    "[pgbouncer]" +:+ nl +:+
    "auth_user = _crunchypgbouncer" +:+ nl +:+
    "[databases]" +:+ nl +:+
    "* = host=demo-primary port=5432" +:+ nl +:+
    nl +:+
    "[pgbouncer]" +:+ nl +:+
    "ignore_startup_parameters = extra_float_digits" +:+ nl +:+
    nl +:+
    "[pgbouncer]" +:+ nl +:+
    "auth_file = /etc/pgbouncer/~postgres-operator/users.txt" +:+ nl +:+
    "auth_query = SELECT username, password from pgbouncer.get_auth($1)" +:+ nl +:+
    "auth_user = _crunchypgbouncer" +:+ nl +:+
    "client_tls_ca_file = /etc/pgbouncer/frontend-ca.crt" +:+ nl +:+
    "client_tls_cert_file = /etc/pgbouncer/frontend.crt" +:+ nl +:+
    "client_tls_key_file = /etc/pgbouncer/frontend.key" +:+ nl +:+
    "client_tls_sslmode = require" +:+ nl +:+
    "conffile = /etc/pgbouncer/~postgres-operator.ini" +:+ nl +:+
    "listen_addr = *" +:+ nl +:+
    "listen_port = 6432" +:+ nl +:+
    "server_tls_ca_file = /etc/pgbouncer/backend-ca.crt" +:+ nl +:+
    "server_tls_sslmode = verify-full" +:+ nl +:+
    "unix_socket_dir = " +:+ nl).
Proof.
  intros nl.
  assert (Hv0 : pgbouncer.validOrders validOrders0).
  { split_and!; [| | intros port]; unfold pgbouncer.rangeOrder;
      apply (bool_decide_unpack _); vm_compute; exact I. }
  split; [exact Hv0|].
  pose proof (clusterINI_layout (aCluster "demo" None) validOrders0
    {| v1beta1.PGBouncer := Some {| PGBouncer_Port := Some 6432 |} |}
    {| PGBouncer_Port := Some 6432 |} 6432 5432 Hv0 eq_refl eq_refl eq_refl
    eq_refl) as Hthm.
  cbn zeta in Hthm. rewrite Hthm. vm_compute. reflexivity.
Defined.

End Examples.
